(** * World synchronisation layer of the arena server (src/world.js)

    A shallow embedding of [world.js]: the three categories of bodies
    (known, static, dynamic), the add/remove listeners that inform the
    clients, the per-connection [join] and [disconnect] handlers, the
    60 Hz update broadcaster and the bag spawner.

    JavaScript numbers are IEEE-754 binary64 values; they are modelled by
    the [spec_float] type of the standard library with precision 53 and
    maximal exponent 1024.  Body ids are the integers handed out by
    Matter's [Common.nextId] counter and are modelled by [nat]. *)

From Stdlib Require Import ZArith Bool List Lia.
From Stdlib Require Import Floats.SpecFloat.
From stdpp Require Import gmap strings list.
Import ListNotations.

Local Open Scope Z_scope.

(** ** JavaScript numbers *)

Module JS.

Definition number := spec_float.

Definition prec : Z := 53.
Definition emax : Z := 1024.

Definition mul : number -> number -> number := SFmul prec emax.
Definition div : number -> number -> number := SFdiv prec emax.
Definition add : number -> number -> number := SFadd prec emax.
Definition sub : number -> number -> number := SFsub prec emax.

(** The number denoting the integer [n] (exact whenever |n| <= 2^53). *)
Definition of_Z (n : Z) : number := binary_normalize prec emax n 0 false.

(** The signed numerator of a finite number [(-1)^s * m * 2^e]. *)
Definition signed (s : bool) (m : positive) : Z := cond_Zopp s (Zpos m).

(** [Math.round]: the integer closest to [x], ties going towards
    +infinity; zeros, infinities and NaN are returned unchanged and a
    result of magnitude zero keeps the sign of [x].  A finite number
    with a non-negative exponent is already an integer.  Otherwise
    [x = k / 2^(-e)] and the result is [floor (x + 1/2)], that is
    [floor ((k + 2^(-e-1)) / 2^(-e))]. *)
Definition Math_round (x : number) : number :=
  match x with
  | S754_finite s m e =>
      if 0 <=? e then x
      else
        let n := Z.shiftr (signed s m + 2 ^ (- e - 1)) (- e) in
        if n =? 0 then S754_zero s else of_Z n
  | _ => x
  end.

Definition hundred : number := of_Z 100.

(** [Math.round(a * 100) / 100], the two-decimal rounding used for
    angles by the update broadcaster. *)
Definition round2 (a : number) : number :=
  div (Math_round (mul a hundred)) hundred.

End JS.

Export JS.

Local Close Scope Z_scope.

(** ** Matter.js objects *)

Module Vector.
Record t := { x : number; y : number }.
End Vector.
Abbreviation Vector := Vector.t.

(** A rigid body.  [id], [position], [angle] and [isSleeping] are the
    engine's own properties.  [shape], [nickname], [health], [tokens],
    [sword], [shield] and [points] are the extra properties that
    [world.js] passes through the options object; a property that was
    not passed is [undefined], here [None].  The options that only the
    physics engine reads (mass, friction, isStatic, isSensor) are left
    out. *)
Record Body := {
  id : nat;
  position : Vector;
  angle : number;
  isSleeping : bool;
  shape : option string;
  nickname : option string;
  health : option number;
  tokens : option number;
  sword : option number;
  shield : option number;
  points : option number
}.

(** What [Composite.add] and [Composite.remove] accept and hand on to
    the listeners as [event.object]: one body or an array of bodies. *)
Inductive Obj :=
| OBody (b : Body)
| OArray (l : list Body).

(** [[].concat(object)] *)
Definition concat_obj (object : Obj) : list Body :=
  match object with
  | OBody b => [b]
  | OArray l => l
  end.

(** The two listeners that [createWorld] declares. *)
Inductive Listener := L_afterAdd | L_afterRemove.

Inductive EventName := BeforeAdd | AfterAdd | BeforeRemove | AfterRemove.

Global Instance EventName_eq_dec : EqDecision EventName.
Proof. solve_decision. Defined.

(** A composite: its id, its bodies in insertion order, the ids of its
    child composites and the listeners attached with [Events.on]. *)
Record Composite := {
  cid : nat;
  bodies : list Body;
  composites : list nat;
  events : list (EventName * Listener)
}.

(** ** Messages leaving the server *)

Record RenderInfo := {
  ri_id : nat;
  ri_shape : option string;
  ri_position : Vector;
  ri_angle : option number
}.

(** One entry of the periodic [update] message. *)
Module Update.
Record t := { i : nat; x : number; y : number; r : number }.
End Update.
Abbreviation UpdateInfo := Update.t.

(** The values sent as a message argument: a bare render-info object,
    an array of them, a bare id, an array of ids, or the game state. *)
Inductive Payload :=
| PInfo (info : RenderInfo)
| PInfos (infos : list RenderInfo)
| PId (n : nat)
| PIds (ns : list nat)
| PGamestate (g : list UpdateInfo).

Definition SocketId := string.

Inductive Msg :=
| IoEmit (name : string) (p : Payload)               (* io.emit *)
| IoVolatileEmit (name : string) (p : Payload)       (* io.volatile.emit *)
| SocketEmit (to : SocketId) (name : string) (p : Payload)  (* socket.emit *)
| SendId (to : SocketId) (playerId : nat).           (* the join acknowledgement *)

(** ** [renderInfo] *)

Definition is_player (s : option string) : bool :=
  match s with
  | Some s => bool_decide (s = "player"%string)
  | None => false
  end.

Definition bodyInfo (body : Body) : RenderInfo :=
  {| ri_id := id body;
     ri_shape := shape body;
     ri_position := position body;
     ri_angle := if is_player (shape body) then Some (angle body) else None |}.

Definition renderInfo (object : Obj) : list RenderInfo :=
  map bodyInfo (concat_obj object).

(** ** The global state and the handler monad *)

(** The module-level variables of [world.js] ([world], [static],
    [dynamic], [socketIds]), Matter's id counter [Common._nextId], and
    for every open connection the variable [player] of its closure
    ([None] while it is [undefined]).  A body object is identified by
    its id, which [Common.nextId] never hands out twice; the closure
    holds the body it created and reads nothing but its id. *)
Record Server := {
  nextId : nat;
  world : Composite;
  static : Composite;
  dynamic : Composite;
  socketIds : gmap nat SocketId;
  player : gmap SocketId (option Body)
}.

Inductive CName := World | Static | Dynamic.

Definition getC (c : CName) (s : Server) : Composite :=
  match c with
  | World => world s
  | Static => static s
  | Dynamic => dynamic s
  end.

Definition setC (c : CName) (v : Composite) (s : Server) : Server :=
  match c with
  | World =>
      {| nextId := nextId s; world := v; static := static s; dynamic := dynamic s;
         socketIds := socketIds s; player := player s |}
  | Static =>
      {| nextId := nextId s; world := world s; static := v; dynamic := dynamic s;
         socketIds := socketIds s; player := player s |}
  | Dynamic =>
      {| nextId := nextId s; world := world s; static := static s; dynamic := v;
         socketIds := socketIds s; player := player s |}
  end.

Definition set_nextId (n : nat) (s : Server) : Server :=
  {| nextId := n; world := world s; static := static s; dynamic := dynamic s;
     socketIds := socketIds s; player := player s |}.

Definition set_socketIds (m : gmap nat SocketId) (s : Server) : Server :=
  {| nextId := nextId s; world := world s; static := static s; dynamic := dynamic s;
     socketIds := m; player := player s |}.

Definition set_player (m : gmap SocketId (option Body)) (s : Server) : Server :=
  {| nextId := nextId s; world := world s; static := static s; dynamic := dynamic s;
     socketIds := socketIds s; player := m |}.

Definition set_bodies (l : list Body) (c : Composite) : Composite :=
  {| cid := cid c; bodies := l; composites := composites c; events := events c |}.

(** A handler reads and writes the server state and emits messages. *)
Definition M (A : Type) : Type := Server -> A * Server * list Msg.

Global Instance M_ret : MRet M := fun A a s => (a, s, []).

Global Instance M_bind : MBind M := fun A B f m s =>
  let '(a, s1, out1) := m s in
  let '(b, s2, out2) := f a s1 in
  (b, s2, out1 ++ out2).

Definition get : M Server := fun s => (s, s, []).
Definition modify (f : Server -> Server) : M unit := fun s => (tt, f s, []).
Definition emit (m : Msg) : M unit := fun s => (tt, s, [m]).

Definition state_of {A} (res : A * Server * list Msg) : Server := snd (fst res).
Definition output_of {A} (res : A * Server * list Msg) : list Msg := snd res.

Fixpoint forEach {A} (f : A -> M unit) (l : list A) : M unit :=
  match l with
  | [] => mret tt
  | a :: l => f a ;; forEach f l
  end.

(** ** Matter.js: ids, events, composites *)

Definition Common_nextId : M nat :=
  fun s => (nextId s, set_nextId (S (nextId s)) s, []).

Definition Composite_create : M Composite :=
  n ← Common_nextId;
  mret {| cid := n; bodies := []; composites := []; events := [] |}.

Definition Events_on (c : CName) (name : EventName) (callback : Listener) : M unit :=
  modify (fun s =>
    let o := getC c s in
    setC c {| cid := cid o; bodies := bodies o; composites := composites o;
              events := events o ++ [(name, callback)] |} s).

(** inform clients that one or many body(s) were added to world *)
Definition afterAdd (object : Obj) : M unit :=
  let info := renderInfo object in
  emit (IoEmit "add" match info with
                     | [info0] => PInfo info0
                     | _ => PInfos info
                     end).

(** inform clients that one or many body(s) were removed from world *)
Definition afterRemove (object : Obj) : M unit :=
  emit (IoEmit "remove" match object with
                        | OArray l => PIds (map id l)
                        | OBody b => PId (id b)
                        end).

Definition call (callback : Listener) (object : Obj) : M unit :=
  match callback with
  | L_afterAdd => afterAdd object
  | L_afterRemove => afterRemove object
  end.

(** [Events.trigger]: every callback registered under [name], in order. *)
Definition Events_trigger (c : CName) (name : EventName) (object : Obj) : M unit :=
  s ← get;
  forEach (fun cb => call cb object)
          (map snd (filter (fun e => bool_decide (fst e = name)) (events (getC c s)))).

Definition Composite_addBody (c : CName) (b : Body) : M unit :=
  modify (fun s => setC c (set_bodies (bodies (getC c s) ++ [b]) (getC c s)) s).

Definition Composite_addComposite (c : CName) (child : Composite) : M unit :=
  modify (fun s =>
    let o := getC c s in
    setC c {| cid := cid o; bodies := bodies o;
              composites := composites o ++ [cid child]; events := events o |} s).

Definition Composite_add (c : CName) (object : Obj) : M unit :=
  Events_trigger c BeforeAdd object ;;
  forEach (Composite_addBody c) (concat_obj object) ;;
  Events_trigger c AfterAdd object.

(** [Common.indexOf] followed by [splice]: the first occurrence of the
    body (the object with that id) is taken out, if there is one. *)
Fixpoint remove_first (n : nat) (l : list Body) : list Body :=
  match l with
  | [] => []
  | b :: l => if bool_decide (id b = n) then l else b :: remove_first n l
  end.

Definition Composite_removeBody (c : CName) (b : Body) : M unit :=
  modify (fun s => setC c (set_bodies (remove_first (id b) (bodies (getC c s))) (getC c s)) s).

Definition Composite_remove (c : CName) (object : Obj) : M unit :=
  Events_trigger c BeforeRemove object ;;
  forEach (Composite_removeBody c) (concat_obj object) ;;
  Events_trigger c AfterRemove object.

(** The extra properties of the options object. *)
Record Options := {
  o_shape : option string;
  o_nickname : option string;
  o_health : option number;
  o_tokens : option number;
  o_sword : option number;
  o_shield : option number;
  o_points : option number
}.

(** [Body.create]: a body with a new id at rest at [(x, y)], awake,
    carrying the extra properties of [options]. *)
Definition Body_create (n : nat) (x y : number) (options : Options) : Body :=
  {| id := n;
     position := {| Vector.x := x; Vector.y := y |};
     angle := of_Z 0;
     isSleeping := false;
     shape := o_shape options;
     nickname := o_nickname options;
     health := o_health options;
     tokens := o_tokens options;
     sword := o_sword options;
     shield := o_shield options;
     points := o_points options |}.

(** What the physics engine decides for a body at one of its ticks. *)
Record Motion := {
  m_position : Vector;
  m_angle : number;
  m_isSleeping : bool
}.

(** The engine moves a body, puts it to sleep or wakes it up; the id and
    the extra properties stay as they are. *)
Definition move (f : Body -> Motion) (b : Body) : Body :=
  {| id := id b;
     position := m_position (f b);
     angle := m_angle (f b);
     isSleeping := m_isSleeping (f b);
     shape := shape b; nickname := nickname b; health := health b;
     tokens := tokens b; sword := sword b; shield := shield b;
     points := points b |}.

(** What arrives at the server: a new connection, a [join] request
    carrying a nickname and an acknowledgement callback, the disconnect
    of a connection, the expiry of the 10 s spawn timer (with the five
    values that [Math.random] returns), the expiry of the 1/60 s update
    timer, and a tick of the physics runner. *)
Inductive Event :=
| EvConnection (socket : SocketId)
| EvJoin (socket : SocketId) (nickname : string)
| EvDisconnect (socket : SocketId)
| EvSpawn (r1 r2 r3 r4 r5 : number)
| EvUpdate
| EvEngine (f : Body -> Motion).

(** *** [Bodies.fromVertices] and the outlines

    [data/shapes.json] is not part of the sources.  What matters of an
    outline is what [Bodies.fromVertices] makes of it.  A convex outline
    gives one part, placed at the point asked for.  A concave outline is
    cut by poly-decomp into chunks, each a part placed at its own
    centre.  A single chunk is the body that is returned, where it
    lies.  Several chunks are the parts of a compound body, which
    [Body.create] puts at their centre of mass and which
    [Body.setPosition] then moves to the point asked for.  (At least one
    chunk is left: with none [Bodies.fromVertices] returns
    [undefined].) *)
Inductive Outline :=
| Convex
| Concave (centre : Vector) (more : nat).

(** The number of parts: one, or [more] and one chunks. *)
Definition parts_of (o : Outline) : nat :=
  match o with
  | Convex => 1
  | Concave _ more => S more
  end.

(** [Body.setPosition (body, {x, y})]: the body moves by
    [delta = (x, y) - position], so that its position becomes
    [position + ((x, y) - position)], computed on binary64 numbers. *)
Definition Body_setPosition (centre : Vector) (x y : number) : Vector :=
  {| Vector.x := add (Vector.x centre) (sub x (Vector.x centre));
     Vector.y := add (Vector.y centre) (sub y (Vector.y centre)) |}.

(** Where the body made of an outline for the point [(x, y)] lies. *)
Definition placement (o : Outline) (x y : number) : Vector :=
  match o with
  | Convex => {| Vector.x := x; Vector.y := y |}
  | Concave centre O => centre
  | Concave centre (S _) => Body_setPosition centre x y
  end.

(** ** [world.js] *)

Section WorldJs.

(** [const shapes = require('../data/shapes.json')], as far as
    [Bodies.fromVertices] is concerned. *)
Variable shapes : string -> Outline.

(** An outline of several parts yields a compound body whose parts are
    created, and given ids, before the body itself. *)
Definition convex_parts (outline : string) : nat := parts_of (shapes outline).

Definition place (outline : string) (x y : number) : Vector :=
  placement (shapes outline) x y.

Fixpoint create_parts (n : nat) : M unit :=
  match n with
  | O => mret tt
  | S n => Common_nextId ;; create_parts n
  end.

Definition Bodies_fromVertices (x y : number) (outline : string) (options : Options)
  : M Body :=
  (if 1 <? convex_parts outline then create_parts (convex_parts outline) else mret tt) ;;
  n ← Common_nextId;
  mret (Body_create n (Vector.x (place outline x y)) (Vector.y (place outline x y))
          options).

Definition no_options : Options :=
  {| o_shape := None; o_nickname := None; o_health := None; o_tokens := None;
     o_sword := None; o_shield := None; o_points := None |}.

Definition createBag (x y points sword shield : number) : M Body :=
  Bodies_fromVertices x y "bag"
    {| o_shape := Some "bag"%string; o_nickname := None; o_health := None;
       o_tokens := None; o_sword := Some sword; o_shield := Some shield;
       o_points := Some points |}.

(** The engine and its world, the terrain (a known body), the two
    composites for static and dynamic bodies, and the four listeners. *)
Definition createWorld : M unit :=
  w ← Composite_create;
  modify (setC World w) ;;
  terrain ← Bodies_fromVertices (of_Z 0) (of_Z 0) "terrain" no_options;
  Composite_add World (OBody terrain) ;;
  st ← Composite_create;
  modify (setC Static st) ;;
  Composite_addComposite World st ;;
  dy ← Composite_create;
  modify (setC Dynamic dy) ;;
  Composite_addComposite World dy ;;
  Events_on Static AfterAdd L_afterAdd ;;
  Events_on Dynamic AfterAdd L_afterAdd ;;
  Events_on Static AfterRemove L_afterRemove ;;
  Events_on Dynamic AfterRemove L_afterRemove.

(** The body of the 10 s interval of [createWorld]. *)
Definition spawn (r1 r2 r3 r4 r5 : number) : M unit :=
  bag ← createBag
           (Math_round (add (of_Z (-400)) (mul (of_Z 800) r1)))
           (Math_round (add (of_Z 500) (mul (of_Z (-600)) r2)))
           (Math_round (mul r3 (of_Z 10)))
           (Math_round (mul r4 (of_Z 4)))
           (Math_round (mul r5 (of_Z 4)));
  Composite_add Static (OBody bag).

(** remove entity from world (the bag drop is still to be written) *)
Definition pop (entity : Body) : M unit :=
  Composite_remove Dynamic (OBody entity).

(** [io.on('connection', ...)]: a fresh closure, [player] undefined. *)
Definition on_connection (socket : SocketId) : M unit :=
  modify (fun s => set_player (<[socket := None]> (player s)) s).

Definition player_options (nick : string) : Options :=
  {| o_shape := Some "player"%string; o_nickname := Some nick;
     o_health := Some (of_Z 100); o_tokens := Some (of_Z 100);
     o_sword := Some (of_Z 0); o_shield := Some (of_Z 0);
     o_points := None |}.

(** [socket.on('join', ...)] up to, and without, its last statement:
    create the player, record the socket id, acknowledge with the
    player's id, and privately emit 'add' for every preexisting body. *)
Definition join_bootstrap (socket : SocketId) (nick : string) : M Body :=
  p ← Bodies_fromVertices (of_Z 0) (of_Z (-300)) "player" (player_options nick);
  modify (fun s => set_player (<[socket := Some p]> (player s)) s) ;;
  modify (fun s => set_socketIds (<[id p := socket]> (socketIds s)) s) ;;
  emit (SendId socket (id p)) ;;
  s ← get;
  let info := renderInfo (OArray (bodies (static s) ++ bodies (dynamic s))) in
  (if 0 <? length info then emit (SocketEmit socket "add" (PInfos info)) else mret tt) ;;
  mret p.

(** [socket.on('join', ...)]: the last statement publicly adds the
    player to the world. *)
Definition on_join (socket : SocketId) (nick : string) : M unit :=
  p ← join_bootstrap socket nick;
  Composite_add Dynamic (OBody p).

(** [socket.on('disconnect', ...)] *)
Definition on_disconnect (socket : SocketId) : M unit :=
  s ← get;
  match player s !! socket with
  | Some (Some p) =>
      pop p ;;
      modify (fun s => set_socketIds (delete (id p) (socketIds s)) s)
  | _ => mret tt
  end.

(** The body of the 1/60 s interval of [emitRegularUpdates]. *)
Definition emitRegularUpdates : M unit :=
  s ← get;
  let gamestate :=
    flat_map (fun b =>
      if isSleeping b then []
      else [ {| Update.i := id b;
                Update.x := Math_round (Vector.x (position b));
                Update.y := Math_round (Vector.y (position b));
                Update.r := div (Math_round (mul (angle b) (of_Z 100))) (of_Z 100) |} ])
      (bodies (dynamic s)) in
  emit (IoVolatileEmit "update" (PGamestate gamestate)).

(** A tick of the runner: every body of the world may move. *)
Definition engine_update (f : Body -> Motion) : M unit :=
  modify (fun s =>
    {| nextId := nextId s;
       world := set_bodies (map (move f) (bodies (world s))) (world s);
       static := set_bodies (map (move f) (bodies (static s))) (static s);
       dynamic := set_bodies (map (move f) (bodies (dynamic s))) (dynamic s);
       socketIds := socketIds s;
       player := (fun o : option Body => move f <$> o) <$> player s |}).

(** The transport delivers [join] and [disconnect] only on a
    connection that is open, hands out every socket id once, and
    closes the connection (and drops its closure) with the disconnect. *)
Definition step (e : Event) : M unit :=
  match e with
  | EvConnection socket =>
      s ← get;
      if decide (is_Some (player s !! socket)) then mret tt else on_connection socket
  | EvJoin socket nick =>
      s ← get;
      if decide (is_Some (player s !! socket)) then on_join socket nick else mret tt
  | EvDisconnect socket =>
      s ← get;
      if decide (is_Some (player s !! socket))
      then on_disconnect socket ;;
           modify (fun s => set_player (delete socket (player s)) s)
      else mret tt
  | EvSpawn r1 r2 r3 r4 r5 => spawn r1 r2 r3 r4 r5
  | EvUpdate => emitRegularUpdates
  | EvEngine f => engine_update f
  end.

(** Before [createWorld] runs nothing exists. *)
Definition blank : Server :=
  let nothing := {| cid := 0; bodies := []; composites := []; events := [] |} in
  {| nextId := 0; world := nothing; static := nothing; dynamic := nothing;
     socketIds := ∅; player := ∅ |}.

(** The module's initialisation: [createWorld(); manageConnections();
    emitRegularUpdates(); manageEvents()].  The last three only
    install handlers and timers. *)
Definition init : M unit := createWorld.

(** The server handling a sequence of events, one after the other. *)
Definition run (evs : list Event) : M unit := forEach step evs.

Definition serve (evs : list Event) : unit * Server * list Msg :=
  (init ;; run evs) blank.

(** *** What the handlers leave behind

    The ids, bodies and states that the statements about the handlers
    speak of. *)

(** The id that [Bodies.fromVertices] gives to the body it returns. *)
Definition fresh_id (outline : string) (s : Server) : nat :=
  nextId s + (if 1 <? convex_parts outline then convex_parts outline else 0).

Definition new_player (nick : string) (s : Server) : Body :=
  Body_create (fresh_id "player" s)
    (Vector.x (place "player" (of_Z 0) (of_Z (-300))))
    (Vector.y (place "player" (of_Z 0) (of_Z (-300))))
    (player_options nick).

Definition bootstrapped (socket : SocketId) (nick : string) (s : Server) : Server :=
  let p := new_player nick s in
  set_socketIds (<[id p := socket]> (socketIds s))
    (set_player (<[socket := Some p]> (player s))
       (set_nextId (S (fresh_id "player" s)) s)).

(** The point that the spawn timer asks for. *)
Definition spawn_x (r1 : number) : number :=
  Math_round (add (of_Z (-400)) (mul (of_Z 800) r1)).

Definition spawn_y (r2 : number) : number :=
  Math_round (add (of_Z 500) (mul (of_Z (-600)) r2)).

Definition new_bag (r1 r2 r3 r4 r5 : number) (s : Server) : Body :=
  Body_create (fresh_id "bag" s)
    (Vector.x (place "bag" (spawn_x r1) (spawn_y r2)))
    (Vector.y (place "bag" (spawn_x r1) (spawn_y r2)))
    {| o_shape := Some "bag"%string; o_nickname := None; o_health := None;
       o_tokens := None;
       o_sword := Some (Math_round (mul r4 (of_Z 4)));
       o_shield := Some (Math_round (mul r5 (of_Z 4)));
       o_points := Some (Math_round (mul r3 (of_Z 10))) |}.

(** The listeners that [createWorld] attaches to [static] and [dynamic]. *)
Definition informing : list (EventName * Listener) :=
  [(AfterAdd, L_afterAdd); (AfterRemove, L_afterRemove)].

(** The id of the terrain: the world composite took 0. *)
Definition terrain_id : nat := fresh_id "terrain" (set_nextId 1 blank).

Definition terrain : Body :=
  Body_create terrain_id
    (Vector.x (place "terrain" (of_Z 0) (of_Z 0)))
    (Vector.y (place "terrain" (of_Z 0) (of_Z 0)))
    no_options.

(** The state that [createWorld] leaves. *)
Definition booted : Server :=
  {| nextId := terrain_id + 3;
     world := {| cid := 0; bodies := [terrain];
                 composites := [terrain_id + 1; terrain_id + 2]; events := [] |};
     static := {| cid := terrain_id + 1; bodies := []; composites := [];
                  events := informing |};
     dynamic := {| cid := terrain_id + 2; bodies := []; composites := [];
                   events := informing |};
     socketIds := ∅;
     player := ∅ |}.

End WorldJs.

(** * Vocabulary of the properties *)

(** The known bodies are those of the world composite itself. *)
Definition known (s : Server) : list Body := bodies (world s).

Definition ids (l : list Body) : list nat := map id l.

(** The message a listener sends for an event object. *)
Definition listener_msg (cb : Listener) (object : Obj) : Msg :=
  match cb with
  | L_afterAdd =>
      IoEmit "add" match renderInfo object with
                   | [info0] => PInfo info0
                   | info => PInfos info
                   end
  | L_afterRemove =>
      IoEmit "remove" match object with
                      | OArray l => PIds (map id l)
                      | OBody b => PId (id b)
                      end
  end.

Definition listeners (name : EventName) (c : Composite) : list Listener :=
  map snd (filter (fun e => bool_decide (fst e = name)) (events c)).

Fixpoint remove_all (l : list Body) (from : list Body) : list Body :=
  match l with
  | [] => from
  | b :: l => remove_all l (remove_first (id b) from)
  end.

(** The private snapshot of [join]: nothing when no body exists. *)
Definition snapshot (socket : SocketId) (s : Server) : list Msg :=
  match bodies (static s) ++ bodies (dynamic s) with
  | [] => []
  | l => [SocketEmit socket "add" (PInfos (map bodyInfo l))]
  end.

Definition all_ids (s : Server) : list nat :=
  ids (known s) ++ ids (bodies (static s)) ++ ids (bodies (dynamic s)).

(** No id occurs twice in the three collections, every id in use was
    handed out by the counter, the world composite has no listener and
    the other two have the informing ones, the terrain is the only known
    body, and the player of an open connection is in [dynamic] and is
    the player of no other connection. *)
Record Inv (s : Server) : Prop := {
  inv_nodup : NoDup (all_ids s);
  inv_fresh : Forall (fun n => n < nextId s) (all_ids s);
  inv_world : events (world s) = [];
  inv_static : events (static s) = informing;
  inv_dynamic : events (dynamic s) = informing;
  inv_terrain : length (known s) = 1;
  inv_bound : forall socket p,
    player s !! socket = Some (Some p) -> id p ∈ ids (bodies (dynamic s));
  inv_owner : forall socket1 socket2 p1 p2,
    player s !! socket1 = Some (Some p1) ->
    player s !! socket2 = Some (Some p2) ->
    id p1 = id p2 -> socket1 = socket2
}.

Definition payload_ids (p : Payload) : list nat :=
  match p with
  | PInfo info => [ri_id info]
  | PInfos infos => map ri_id infos
  | PId n => [n]
  | PIds ns => ns
  | PGamestate g => map Update.i g
  end.

(** The ids of the bodies that a message tells a client about. *)
Definition mentioned (m : Msg) : list nat :=
  match m with
  | IoEmit _ p | IoVolatileEmit _ p | SocketEmit _ _ p => payload_ids p
  | SendId _ n => [n]
  end.

Definition silent_about (l : list nat) (out : list Msg) : Prop :=
  Forall (fun m => Forall (fun n => n ∉ l) (mentioned m)) out.

(** A message other than a broadcast of an array of records or ids. *)
Definition singular (m : Msg) : Prop :=
  match m with
  | IoEmit _ (PInfos _) | IoEmit _ (PIds _) => False
  | _ => True
  end.

(** The record that the update broadcaster sends for a body. *)
Definition update_of (b : Body) : UpdateInfo :=
  {| Update.i := id b;
     Update.x := Math_round (Vector.x (position b));
     Update.y := Math_round (Vector.y (position b));
     Update.r := round2 (angle b) |}.

Definition awake (b : Body) : Prop := isSleeping b = false.

Local Open Scope Z_scope.

(** A number whose exponent is not negative is an integer, and
    [Math.round] returns it. *)
Definition integral (x : number) : Prop :=
  match x with
  | S754_finite _ _ e => 0 <= e
  | _ => True
  end.

(** A finite number is [numerator / denominator], the denominator a
    power of two. *)
Definition numerator (x : number) : Z :=
  match x with
  | S754_finite s m e => signed s m * 2 ^ Z.max e 0
  | _ => 0
  end.

Definition denominator (x : number) : Z :=
  match x with
  | S754_finite _ _ e => 2 ^ Z.max (- e) 0
  | _ => 1
  end.

(** The number [y] is the integer [n]. *)
Definition denotes (y : number) (n : Z) : Prop :=
  match y with
  | S754_zero _ => n = 0
  | S754_finite _ _ _ => numerator y = n * denominator y
  | _ => False
  end.

(** [y] is [x] rounded to the nearest integer, a half going up: [y] is
    the integer [n] with [n - 1/2 <= x < n + 1/2].  A zero, an infinity
    and NaN stay as they are. *)
Definition rounded (x y : number) : Prop :=
  match x with
  | S754_finite _ _ _ =>
      exists n, denotes y n /\
                (2 * n - 1) * denominator x <= 2 * numerator x < (2 * n + 1) * denominator x
  | _ => y = x
  end.

(** The binary64 number nearest to 0.015; it is less than 0.015. *)
Definition angle_015 : number := S754_finite false 8646911284551352 (-59).

(** Rounding to nearest after dropping [k] low bits. *)
Definition rnd (m k : Z) : Z :=
  round_nearest_even (m / 2 ^ k)
    (loc_of_shr_record
       {| shr_m := m / 2 ^ k;
          shr_r := Z.odd (m / 2 ^ (k - 1));
          shr_s := negb (m mod 2 ^ (k - 1) =? 0) |}).

(** The mantissa of [hundred], 100 * 2^46. *)
Definition M100 : Z := 7036874417766400.

(** A number that is not finite, or an integer of magnitude below 2^51. *)
Definition small_integer (x : number) : Prop :=
  match x with
  | S754_finite _ _ _ => exists n, Z.abs n < 2 ^ 51 /\ x = of_Z n
  | _ => True
  end.

(** The angle 44217068306705.586 (0x1.41b8b532088cbp+45). *)
Definition far_angle : number := S754_finite false 5659784743258315 (-7).

(** The angle 3.14159. *)
Definition pi_angle : number := div (of_Z 314159) (of_Z 100000).

(** What [Math.random] returns: a number with positive sign, at least
    +0 and below 1. *)
Definition unit_interval (r : number) : Prop :=
  match r with
  | S754_zero s => s = false
  | S754_finite s m e =>
      s = false /\ bounded prec emax m e = true /\ Zpos m < 2 ^ (- e)
  | _ => False
  end.

(** A zero of sign [s], or a number of sign [s], of magnitude at most
    [T] and with a negative exponent. *)
Definition within (s : bool) (T : Z) (x : number) : Prop :=
  match x with
  | S754_zero s' => s' = s
  | S754_finite s' m e => s' = s /\ e < 0 /\ Zpos m <= T * 2 ^ (- e)
  | _ => False
  end.

(** The number of an integer from [lo] to [hi], or the negative zero. *)
Definition integer_between (lo hi : Z) (x : number) : Prop :=
  exists n, lo <= n <= hi /\ (x = of_Z n \/ (n = 0 /\ x = S754_zero true)).

(** One half. *)
Definition half : number := S754_finite false 4503599627370496 (-53).

Local Close Scope Z_scope.

(** *** What a client sees, and what the collections hold *)

(** The ids of the bodies a client draws: the static and the dynamic ones. *)
Definition visible (s : Server) : gset nat :=
  list_to_set (ids (bodies (static s)) ++ ids (bodies (dynamic s))).

Definition payload_set (p : Payload) : gset nat := list_to_set (payload_ids p).

(** The bookkeeping that the messages of the server are measured
    against: a client keeps the set of the ids it was told of.  A
    broadcast [add] must bring ids it does not have, a [remove] and an
    [update] must name ids it has; the private [add] of its own join
    may repeat ids, and what is sent to another connection does not
    reach it.  [None] when a message does not fit. *)
Definition receive (socket : SocketId) (view : gset nat) (m : Msg) : option (gset nat) :=
  match m with
  | IoEmit name p =>
      if bool_decide (name = "add"%string) then
        if bool_decide (payload_set p ## view) then Some (view ∪ payload_set p) else None
      else if bool_decide (name = "remove"%string) then
        if bool_decide (payload_set p ⊆ view) then Some (view ∖ payload_set p) else None
      else Some view
  | IoVolatileEmit _ p =>
      if bool_decide (payload_set p ⊆ view) then Some view else None
  | SocketEmit to _ p =>
      if bool_decide (to = socket) then Some (view ∪ payload_set p) else Some view
  | SendId _ _ => Some view
  end.

Fixpoint track (socket : SocketId) (view : gset nat) (out : list Msg) : option (gset nat) :=
  match out with
  | [] => Some view
  | m :: out =>
      match receive socket view m with
      | Some view' => track socket view' out
      | None => None
      end
  end.

(** The ids that the broadcasts of a message add, and those it removes. *)
Definition added_ids (m : Msg) : list nat :=
  match m with
  | IoEmit name p => if bool_decide (name = "add"%string) then payload_ids p else []
  | _ => []
  end.

Definition removed_ids (m : Msg) : list nat :=
  match m with
  | IoEmit name p => if bool_decide (name = "remove"%string) then payload_ids p else []
  | _ => []
  end.

(** [socketIds] has an entry for exactly the dynamic bodies, and the
    entry of a connection's player is the connection. *)
Record Linked (s : Server) : Prop := {
  linked_dom : forall n, is_Some (socketIds s !! n) <-> n ∈ ids (bodies (dynamic s));
  linked_bound : forall socket p,
    player s !! socket = Some (Some p) -> socketIds s !! id p = Some socket
}.

(** The extra properties that [createBag], the [join] handler and the
    terrain give to a body. *)
Definition is_bag (b : Body) : Prop :=
  shape b = Some "bag"%string /\ nickname b = None /\ health b = None /\
  tokens b = None /\ is_Some (points b) /\ is_Some (sword b) /\ is_Some (shield b).

Definition is_new_player (b : Body) : Prop :=
  shape b = Some "player"%string /\ is_Some (nickname b) /\
  health b = Some (of_Z 100) /\ tokens b = Some (of_Z 100) /\
  sword b = Some (of_Z 0) /\ shield b = Some (of_Z 0) /\ points b = None.

Definition is_plain (b : Body) : Prop :=
  shape b = None /\ nickname b = None /\ health b = None /\
  tokens b = None /\ points b = None /\ sword b = None /\ shield b = None.

(** The terrain is plain, [static] holds bags and [dynamic] players
    with the attributes they were created with. *)
Record Kinds (s : Server) : Prop := {
  kinds_known : Forall is_plain (known s);
  kinds_static : Forall is_bag (bodies (static s));
  kinds_dynamic : Forall is_new_player (bodies (dynamic s))
}.

(** The ids of the players of the open connections. *)
Definition bound_ids (s : Server) : list nat :=
  omap (fun o : option Body => id <$> o) (map_to_list (player s)).*2.

(** The connection that a private message is sent to. *)
Definition receiver (m : Msg) : option SocketId :=
  match m with
  | SocketEmit to _ _ | SendId to _ => Some to
  | _ => None
  end.

(** *** A concrete server *)

(** A shape table in which every outline is convex. *)
Definition convex : string -> Outline := fun _ => Convex.

Definition alice : Body :=
  Body_create 4 (of_Z 0) (of_Z (-300)) (player_options "alice").

Definition bob : Body :=
  Body_create 5 (of_Z 0) (of_Z (-300)) (player_options "bob").

(** One player has joined and a second connection is open. *)
Definition alice_in : Server :=
  state_of (serve convex [EvConnection "a"; EvJoin "a" "alice"; EvConnection "b"]).

(** * Properties *)

(** ** How the handlers run *)

Lemma bind_run {A B} (m : M A) (f : A -> M B) (s : Server) :
  (m ≫= f) s =
  let '(a, s1, out1) := m s in
  let '(b, s2, out2) := f a s1 in (b, s2, out1 ++ out2).
Proof. reflexivity. Qed.

Lemma call_run cb object s : call cb object s = (tt, s, [listener_msg cb object]).
Proof.
  destruct cb; cbn; unfold afterAdd, afterRemove, emit; cbn.
  - destruct (renderInfo object) as [|? [|? ?]]; reflexivity.
  - reflexivity.
Qed.

Lemma forEach_call object cbs s :
  forEach (fun cb => call cb object) cbs s =
  (tt, s, map (fun cb => listener_msg cb object) cbs).
Proof.
  induction cbs as [|cb cbs IH]; [reflexivity|].
  cbn [forEach]. rewrite bind_run, call_run, IH. reflexivity.
Qed.

Lemma Events_trigger_run c name object s :
  Events_trigger c name object s =
  (tt, s, map (fun cb => listener_msg cb object) (listeners name (getC c s))).
Proof.
  unfold Events_trigger. rewrite bind_run. cbn [get].
  rewrite forEach_call. reflexivity.
Qed.

Lemma getC_setC c v s : getC c (setC c v s) = v.
Proof. destruct c; reflexivity. Qed.

Lemma setC_setC c v w s : setC c v (setC c w s) = setC c v s.
Proof. destruct c; reflexivity. Qed.

Lemma set_bodies_twice l l' c : set_bodies l (set_bodies l' c) = set_bodies l c.
Proof. reflexivity. Qed.

Lemma forEach_addBody c l s :
  forEach (Composite_addBody c) l s =
  (tt, setC c (set_bodies (bodies (getC c s) ++ l) (getC c s)) s, []).
Proof.
  revert s. induction l as [|b l IH]; intros s.
  - cbn. rewrite app_nil_r. destruct c, s as [? [] [] [] ? ?]; reflexivity.
  - cbn [forEach]. rewrite bind_run. unfold Composite_addBody at 1, modify.
    rewrite IH, getC_setC, setC_setC. cbn [bodies set_bodies].
    rewrite <- app_assoc. reflexivity.
Qed.

Lemma forEach_removeBody c l s :
  forEach (Composite_removeBody c) l s =
  (tt, setC c (set_bodies (remove_all l (bodies (getC c s))) (getC c s)) s, []).
Proof.
  revert s. induction l as [|b l IH]; intros s.
  - cbn. destruct c, s as [? [] [] [] ? ?]; reflexivity.
  - cbn [forEach]. rewrite bind_run. unfold Composite_removeBody at 1, modify.
    rewrite IH, getC_setC, setC_setC. reflexivity.
Qed.

Lemma listeners_set_bodies name l c :
  listeners name (set_bodies l c) = listeners name c.
Proof. reflexivity. Qed.

Lemma Composite_add_run c object s :
  Composite_add c object s =
  (tt,
   setC c (set_bodies (bodies (getC c s) ++ concat_obj object) (getC c s)) s,
   map (fun cb => listener_msg cb object) (listeners BeforeAdd (getC c s)) ++
   map (fun cb => listener_msg cb object) (listeners AfterAdd (getC c s))).
Proof.
  unfold Composite_add.
  rewrite bind_run, Events_trigger_run; cbv beta iota.
  rewrite bind_run, forEach_addBody; cbv beta iota.
  rewrite Events_trigger_run, getC_setC, listeners_set_bodies.
  cbn [app]. reflexivity.
Qed.

Lemma Composite_remove_run c object s :
  Composite_remove c object s =
  (tt,
   setC c (set_bodies (remove_all (concat_obj object) (bodies (getC c s))) (getC c s)) s,
   map (fun cb => listener_msg cb object) (listeners BeforeRemove (getC c s)) ++
   map (fun cb => listener_msg cb object) (listeners AfterRemove (getC c s))).
Proof.
  unfold Composite_remove.
  rewrite bind_run, Events_trigger_run; cbv beta iota.
  rewrite bind_run, forEach_removeBody; cbv beta iota.
  rewrite Events_trigger_run, getC_setC, listeners_set_bodies.
  cbn [app]. reflexivity.
Qed.

Lemma create_parts_run k s :
  create_parts k s = (tt, set_nextId (nextId s + k) s, []).
Proof.
  revert s. induction k as [|k IH]; intros s.
  - cbn. rewrite Nat.add_0_r. destruct s; reflexivity.
  - cbn [create_parts]. rewrite bind_run. unfold Common_nextId at 1.
    rewrite IH. cbn. rewrite Nat.add_succ_r. reflexivity.
Qed.

Section WorldJsRuns.

Variable shapes : string -> Outline.

Lemma fresh_id_ge outline s : nextId s <= fresh_id shapes outline s.
Proof. unfold fresh_id. lia. Qed.

Lemma Bodies_fromVertices_run x y outline options s :
  Bodies_fromVertices shapes x y outline options s =
  (Body_create (fresh_id shapes outline s)
     (Vector.x (place shapes outline x y)) (Vector.y (place shapes outline x y)) options,
   set_nextId (S (fresh_id shapes outline s)) s, []).
Proof.
  unfold Bodies_fromVertices, fresh_id. rewrite bind_run.
  destruct (1 <? convex_parts shapes outline).
  - rewrite create_parts_run. reflexivity.
  - cbn. rewrite Nat.add_0_r. destruct s; reflexivity.
Qed.

Lemma join_bootstrap_run socket nick s :
  join_bootstrap shapes socket nick s =
  (new_player shapes nick s, bootstrapped shapes socket nick s,
   SendId socket (id (new_player shapes nick s)) :: snapshot socket s).
Proof.
  unfold join_bootstrap. rewrite bind_run, Bodies_fromVertices_run.
  cbv beta iota. unfold snapshot, renderInfo, new_player, bootstrapped.
  unfold mbind, M_bind, mret, M_ret, modify, emit, get.
  cbn -[of_Z fresh_id "<?"].
  destruct (bodies (static s) ++ bodies (dynamic s)) as [|b l]; reflexivity.
Qed.

Lemma on_join_run socket nick s :
  on_join shapes socket nick s =
  (tt,
   setC Dynamic (set_bodies (bodies (dynamic s) ++ [new_player shapes nick s]) (dynamic s))
     (bootstrapped shapes socket nick s),
   SendId socket (id (new_player shapes nick s)) :: snapshot socket s ++
   map (fun cb => listener_msg cb (OBody (new_player shapes nick s)))
     (listeners BeforeAdd (dynamic s) ++ listeners AfterAdd (dynamic s))).
Proof.
  unfold on_join. rewrite bind_run, join_bootstrap_run. cbv beta iota.
  rewrite Composite_add_run. cbn [getC bootstrapped dynamic set_socketIds set_player
    set_nextId concat_obj]. rewrite map_app. reflexivity.
Qed.

Lemma on_disconnect_run socket s :
  on_disconnect socket s =
  match player s !! socket with
  | Some (Some p) =>
      (tt,
       set_socketIds (delete (id p) (socketIds s))
         (setC Dynamic (set_bodies (remove_first (id p) (bodies (dynamic s))) (dynamic s)) s),
       map (fun cb => listener_msg cb (OBody p))
         (listeners BeforeRemove (dynamic s) ++ listeners AfterRemove (dynamic s)))
  | _ => (tt, s, [])
  end.
Proof.
  unfold on_disconnect. rewrite bind_run. cbn [get].
  destruct (player s !! socket) as [[p|]|]; try reflexivity.
  unfold pop. rewrite bind_run, Composite_remove_run. cbn. rewrite map_app, app_nil_r.
  reflexivity.
Qed.

Lemma spawn_run r1 r2 r3 r4 r5 s :
  spawn shapes r1 r2 r3 r4 r5 s =
  (tt,
   setC Static (set_bodies (bodies (static s) ++ [new_bag shapes r1 r2 r3 r4 r5 s]) (static s))
     (set_nextId (S (fresh_id shapes "bag" s)) s),
   map (fun cb => listener_msg cb (OBody (new_bag shapes r1 r2 r3 r4 r5 s)))
     (listeners BeforeAdd (static s) ++ listeners AfterAdd (static s))).
Proof.
  unfold spawn, createBag. rewrite bind_run, Bodies_fromVertices_run. cbv beta iota.
  rewrite Composite_add_run. cbn [getC static set_nextId concat_obj app].
  rewrite map_app. reflexivity.
Qed.

End WorldJsRuns.

(** ** The invariant of the server *)

Lemma ids_app l1 l2 : ids (l1 ++ l2) = ids l1 ++ ids l2.
Proof. apply map_app. Qed.

Lemma ids_move f l : ids (map (move f) l) = ids l.
Proof. unfold ids. rewrite map_map. reflexivity. Qed.

Lemma remove_first_sublist n l : sublist (ids (remove_first n l)) (ids l).
Proof.
  induction l as [|b l IH]; cbn; [constructor|].
  case_bool_decide; [by apply sublist_cons | by apply sublist_skip].
Qed.

Lemma remove_first_keeps n m l :
  m ≠ n -> m ∈ ids l -> m ∈ ids (remove_first n l).
Proof.
  intros Hne. induction l as [|b l IH]; cbn; [done|].
  intros [Heq|Hin]%elem_of_cons.
  - case_bool_decide; [congruence|]. cbn. rewrite Heq. apply elem_of_cons. by left.
  - case_bool_decide; [done|]. cbn. apply elem_of_cons. right. by apply IH.
Qed.

Lemma filter_all {A} (P : A -> Prop) `{forall a, Decision (P a)} (l : list A) :
  Forall P l -> filter P l = l.
Proof.
  induction 1 as [|a l Ha Hl IH]; [done|].
  rewrite filter_cons_True by done. by f_equal.
Qed.

Lemma remove_first_filter n l :
  NoDup (ids l) ->
  remove_first n l = filter (fun b => id b ≠ n) l.
Proof.
  induction l as [|b l IH]; [done|].
  change (ids (b :: l)) with (id b :: ids l). cbn [remove_first].
  intros [Hb Hl]%NoDup_cons. case_bool_decide as Hn.
  - rewrite filter_cons_False by (intros ?; congruence).
    symmetry. apply filter_all.
    apply Forall_forall. intros c Hc Heq. apply Hb. rewrite Hn, <- Heq.
    unfold ids. apply list_elem_of_fmap. by exists c.
  - rewrite filter_cons_True by done. f_equal. by apply IH.
Qed.

Lemma remove_first_length n l :
  n ∈ ids l -> S (length (remove_first n l)) = length l.
Proof.
  induction l as [|b l IH]; cbn.
  - by intros ?%elem_of_nil.
  - intros [Heq|Hin]%elem_of_cons; case_bool_decide; try done; try congruence.
    cbn. f_equal. by apply IH.
Qed.

Lemma listeners_informing c :
  events c = informing ->
  listeners BeforeAdd c = [] /\ listeners AfterAdd c = [L_afterAdd] /\
  listeners BeforeRemove c = [] /\ listeners AfterRemove c = [L_afterRemove].
Proof. unfold listeners. intros ->. by cbn. Qed.

Section Reachable.

Variable shapes : string -> Outline.

Lemma createWorld_run : createWorld shapes blank = (tt, booted shapes, []).
Proof.
  unfold createWorld, Composite_create.
  rewrite !bind_run. cbn [Common_nextId mret M_ret modify blank nextId].
  cbv beta iota.
  rewrite !bind_run. cbn [modify]. cbv beta iota.
  rewrite bind_run, Bodies_fromVertices_run.
  set (t := fresh_id _ _ _).
  assert (Ht : t = terrain_id shapes) by reflexivity. clearbody t.
  cbv beta iota.
  rewrite bind_run, Composite_add_run. cbv beta iota.
  unfold Composite_addComposite, Events_on, modify, mbind, M_bind, mret, M_ret,
    Common_nextId.
  cbn. unfold booted, terrain. rewrite <- Ht.
  replace (S (S (S t))) with (t + 3) by lia.
  replace (S (S t)) with (t + 2) by lia.
  replace (S t) with (t + 1) by lia.
  reflexivity.
Qed.

Lemma Inv_booted : Inv (booted shapes).
Proof.
  split; cbn; try done.
  - apply NoDup_singleton.
  - repeat constructor. lia.
Qed.

Lemma not_in_fresh n l : Forall (fun m => m < n) l -> forall k, n <= k -> k ∉ l.
Proof.
  intros Hl k Hk Hin. rewrite Forall_forall in Hl. specialize (Hl _ Hin). lia.
Qed.

Lemma NoDup_snoc (l : list nat) n : NoDup l -> n ∉ l -> NoDup (l ++ [n]).
Proof.
  intros Hl Hn. apply NoDup_app. split; [done|]. split; [|apply NoDup_singleton].
  intros m Hm ->%list_elem_of_singleton. done.
Qed.

Lemma Inv_on_join socket nick s :
  Inv s -> Inv (state_of (on_join shapes socket nick s)).
Proof.
  intros [Hnd Hfr Hw Hst Hdy Hte Hbd Hown].
  rewrite on_join_run. unfold state_of. cbn [fst snd].
  pose proof (fresh_id_ge shapes "player" s) as Hge.
  assert (Hnew : fresh_id shapes "player" s ∉ all_ids s)
    by (eapply not_in_fresh; eauto).
  split; unfold all_ids, known in *; cbn [setC bootstrapped world static dynamic nextId
    set_socketIds set_player set_nextId set_bodies bodies events player new_player
    Body_create id]; try done.
  - rewrite ids_app, !app_assoc. apply NoDup_snoc; rewrite <- ?app_assoc; done.
  - rewrite ids_app, !app_assoc. apply Forall_app. split.
    + rewrite <- !app_assoc. eapply Forall_impl; [exact Hfr|]. cbn. lia.
    + apply Forall_singleton. cbn. lia.
  - intros socket' p. rewrite ids_app. destruct (decide (socket = socket')) as [<-|Hne].
    + rewrite lookup_insert_eq. intros [= <-]. apply elem_of_app. right.
      cbn. apply list_elem_of_singleton. done.
    + rewrite lookup_insert_ne by done. intros Hp. apply elem_of_app. left. eauto.
  - assert (Hold : forall socket' p, player s !! socket' = Some (Some p) ->
              id p ≠ fresh_id shapes "player" s).
    { intros socket' p Hp Heq. apply Hnew. rewrite <- Heq.
      rewrite !elem_of_app. right. right. eauto. }
    intros s1 s2 p1 p2.
    destruct (decide (socket = s1)) as [<-|H1], (decide (socket = s2)) as [<-|H2];
      rewrite ?lookup_insert_eq, ?lookup_insert_ne by done; try done.
    + intros [= <-] Hp2 Heq. cbn in Heq. symmetry in Heq. by apply Hold in Hp2.
    + intros Hp1 [= <-] Heq. cbn in Heq. by apply Hold in Hp1.
    + eauto.
Qed.

Lemma Inv_spawn r1 r2 r3 r4 r5 s :
  Inv s -> Inv (state_of (spawn shapes r1 r2 r3 r4 r5 s)).
Proof.
  intros [Hnd Hfr Hw Hst Hdy Hte Hbd Hown].
  rewrite spawn_run. unfold state_of. cbn [fst snd].
  pose proof (fresh_id_ge shapes "bag" s) as Hge.
  assert (Hnew : fresh_id shapes "bag" s ∉ all_ids s)
    by (eapply not_in_fresh; eauto).
  assert (Hperm : ids (known s) ++ ids (bodies (static s) ++ [new_bag shapes r1 r2 r3 r4 r5 s])
                    ++ ids (bodies (dynamic s))
                  ≡ₚ all_ids s ++ [fresh_id shapes "bag" s]).
  { unfold all_ids. rewrite ids_app. cbn. rewrite <- !app_assoc.
    do 2 apply Permutation_app_head. cbn. apply Permutation_cons_append. }
  split; unfold all_ids, known in *; cbn [setC world static dynamic nextId
    set_nextId set_bodies bodies events player]; try done.
  - rewrite Hperm. by apply NoDup_snoc.
  - rewrite Hperm. apply Forall_app. split.
    + eapply Forall_impl; [exact Hfr|]. cbn. lia.
    + apply Forall_singleton. lia.
Qed.

Lemma Inv_engine_update f s : Inv s -> Inv (state_of (engine_update f s)).
Proof.
  intros [Hnd Hfr Hw Hst Hdy Hte Hbd Hown].
  unfold engine_update, modify, state_of. cbn [fst snd].
  split; unfold all_ids, known in *; cbn [world static dynamic nextId set_bodies
    bodies events player]; rewrite ?ids_move, ?length_map; try done.
  - intros socket p. rewrite lookup_fmap.
    destruct (player s !! socket) as [[q|]|] eqn:Hq; cbn; try done.
    intros [= <-]. cbn. eauto.
  - intros s1 s2 p1 p2. rewrite !lookup_fmap.
    destruct (player s !! s1) as [[q1|]|] eqn:Hq1; cbn; try done.
    destruct (player s !! s2) as [[q2|]|] eqn:Hq2; cbn; try done.
    intros [= <-] [= <-]. cbn. eauto.
Qed.

Lemma Inv_disconnect socket s :
  Inv s -> Inv (state_of (step shapes (EvDisconnect socket) s)).
Proof.
  intros HI. pose proof HI as [Hnd Hfr Hw Hst Hdy Hte Hbd Hown].
  unfold step. rewrite bind_run. cbn [get].
  destruct (decide (is_Some (player s !! socket))) as [Hs|Hs]; [|done].
  rewrite bind_run, on_disconnect_run.
  destruct (player s !! socket) as [[p|]|] eqn:Hp.
  - unfold state_of, modify. cbn [fst snd].
    assert (Hsub : sublist (ids (known s) ++ ids (bodies (static s)) ++
                            ids (remove_first (id p) (bodies (dynamic s)))) (all_ids s)).
    { unfold all_ids. do 2 (apply sublist_app; [done|]). apply remove_first_sublist. }
    split; unfold all_ids, known in *; cbn [setC world static dynamic nextId
      set_socketIds set_player set_bodies bodies events player]; try done.
    + eapply sublist_NoDup; eauto.
    + rewrite Forall_forall in Hfr |- *. intros n Hn. apply Hfr.
      eapply sublist_subseteq; eauto.
    + intros socket' q. destruct (decide (socket = socket')) as [<-|Hne].
      * by rewrite lookup_delete_eq.
      * rewrite lookup_delete_ne by done. intros Hq.
        apply remove_first_keeps; [|eauto].
        intros Heq. apply Hne. eapply Hown; eauto.
    + intros s1 s2 p1 p2.
      destruct (decide (socket = s1)) as [<-|H1]; [by rewrite lookup_delete_eq|].
      destruct (decide (socket = s2)) as [<-|H2]; [by rewrite lookup_delete_eq|].
      rewrite !lookup_delete_ne by done. eauto.
  - unfold state_of, modify. cbn [fst snd].
    split; unfold all_ids, known in *; cbn [world static dynamic nextId
      set_player bodies events player]; try done.
    + intros socket' q. destruct (decide (socket = socket')) as [<-|Hne].
      * by rewrite lookup_delete_eq.
      * rewrite lookup_delete_ne by done. eauto.
    + intros s1 s2 p1 p2.
      destruct (decide (socket = s1)) as [<-|H1]; [by rewrite lookup_delete_eq|].
      destruct (decide (socket = s2)) as [<-|H2]; [by rewrite lookup_delete_eq|].
      rewrite !lookup_delete_ne by done. eauto.
  - by destruct Hs.
Qed.

Lemma Inv_step e s : Inv s -> Inv (state_of (step shapes e s)).
Proof.
  intros HI. destruct e as [socket|socket nick|socket|r1 r2 r3 r4 r5| |f].
  - unfold step. rewrite bind_run. cbn [get].
    destruct (decide (is_Some (player s !! socket))) as [Hs|Hs]; [done|].
    destruct HI as [Hnd Hfr Hw Hst Hdy Hte Hbd Hown].
    unfold on_connection, modify, state_of. cbn [fst snd].
    split; unfold all_ids, known in *; cbn [world static dynamic nextId
      set_player bodies events player]; try done.
    + intros socket' q. destruct (decide (socket = socket')) as [<-|Hne].
      * by rewrite lookup_insert_eq.
      * rewrite lookup_insert_ne by done. eauto.
    + intros s1 s2 p1 p2.
      destruct (decide (socket = s1)) as [<-|H1]; [by rewrite lookup_insert_eq|].
      destruct (decide (socket = s2)) as [<-|H2]; [by rewrite lookup_insert_eq|].
      rewrite !lookup_insert_ne by done. eauto.
  - unfold step. rewrite bind_run. cbn [get].
    destruct (decide (is_Some (player s !! socket))) as [Hs|Hs]; [|done].
    pose proof (Inv_on_join socket nick s HI) as HJ. unfold state_of in *.
    destruct (on_join shapes socket nick s) as [[[] s'] out]. done.
  - by apply Inv_disconnect.
  - by apply Inv_spawn.
  - done.
  - by apply Inv_engine_update.
Qed.

Lemma state_of_bind {A B} (m : M A) (f : A -> M B) s :
  state_of ((m ≫= f) s) = state_of (f (fst (fst (m s))) (state_of (m s))).
Proof.
  unfold state_of. rewrite bind_run. destruct (m s) as [[a s1] o1]. cbn.
  destruct (f a s1) as [[b s2] o2]. reflexivity.
Qed.

Lemma output_of_bind {A B} (m : M A) (f : A -> M B) s :
  output_of ((m ≫= f) s) =
  output_of (m s) ++ output_of (f (fst (fst (m s))) (state_of (m s))).
Proof.
  unfold state_of, output_of. rewrite bind_run. destruct (m s) as [[a s1] o1]. cbn.
  destruct (f a s1) as [[b s2] o2]. reflexivity.
Qed.

Lemma Inv_run evs s : Inv s -> Inv (state_of (run shapes evs s)).
Proof.
  revert s. induction evs as [|e evs IH]; intros s HI; [done|].
  unfold run. cbn [forEach]. rewrite state_of_bind. apply IH. by apply Inv_step.
Qed.

Lemma serve_run evs :
  serve shapes evs = run shapes evs (booted shapes).
Proof.
  unfold serve, init. rewrite bind_run, createWorld_run.
  destruct (run shapes evs (booted shapes)) as [[[] s] out]. reflexivity.
Qed.

Lemma Inv_serve evs : Inv (state_of (serve shapes evs)).
Proof. rewrite serve_run. apply Inv_run, Inv_booted. Qed.

(** *** What a message mentions *)

Lemma map_ri_id l : map ri_id (map bodyInfo l) = ids l.
Proof. unfold ids. rewrite map_map. reflexivity. Qed.

Lemma known_apart s n :
  Inv s -> n ∈ ids (bodies (static s)) ++ ids (bodies (dynamic s)) -> n ∉ ids (known s).
Proof.
  intros [Hnd _ _ _ _ _ _ _] Hin Hk. unfold all_ids in Hnd.
  apply NoDup_app in Hnd as (_ & Hd & _). by apply (Hd n).
Qed.

Lemma known_fresh s n : Inv s -> nextId s <= n -> n ∉ ids (known s).
Proof.
  intros [_ Hfr _ _ _ _ _ _] Hn Hk. unfold all_ids in Hfr.
  apply Forall_app in Hfr as [Hfr _]. rewrite Forall_forall in Hfr.
  specialize (Hfr _ Hk). lia.
Qed.

Lemma snapshot_silent socket s : Inv s -> silent_about (ids (known s)) (snapshot socket s).
Proof.
  intros HI. unfold snapshot.
  destruct (bodies (static s) ++ bodies (dynamic s)) as [|b l] eqn:Hl; [constructor|].
  apply Forall_singleton. cbn [mentioned payload_ids]. rewrite map_ri_id, <- Hl.
  apply Forall_forall. intros n Hn. apply known_apart; [done|]. by rewrite <- ids_app.
Qed.

Lemma step_silent e s :
  Inv s -> silent_about (ids (known s)) (output_of (step shapes e s)).
Proof.
  intros HI. pose proof HI as [Hnd Hfr Hw Hst Hdy Hte Hbd Hown].
  destruct (listeners_informing _ Hst) as (Hs1 & Hs2 & Hs3 & Hs4).
  destruct (listeners_informing _ Hdy) as (Hd1 & Hd2 & Hd3 & Hd4).
  destruct e as [socket|socket nick|socket|r1 r2 r3 r4 r5| |f];
    unfold step; rewrite ?bind_run; cbn [get].
  - destruct (decide (is_Some (player s !! socket))); constructor.
  - destruct (decide (is_Some (player s !! socket))); [|constructor].
    rewrite on_join_run, Hd1, Hd2. cbn [output_of snd app map listener_msg renderInfo
      concat_obj].
    pose proof (fresh_id_ge shapes "player" s) as Hge.
    constructor; [|apply Forall_app; split].
    + apply Forall_singleton. by apply known_fresh.
    + by apply snapshot_silent.
    + apply Forall_singleton, Forall_singleton. by apply known_fresh.
  - destruct (decide (is_Some (player s !! socket))); [|constructor].
    rewrite bind_run, on_disconnect_run.
    destruct (player s !! socket) as [[p|]|] eqn:Hp; cbn; try constructor.
    rewrite Hd3, Hd4. cbn. apply Forall_singleton, Forall_singleton.
    apply known_apart; [done|]. apply elem_of_app. right. eauto.
  - rewrite spawn_run, Hs1, Hs2. cbn.
    pose proof (fresh_id_ge shapes "bag" s) as Hge.
    apply Forall_singleton, Forall_singleton. by apply known_fresh.
  - unfold emitRegularUpdates. rewrite bind_run. cbn.
    apply Forall_singleton. apply Forall_forall. intros n Hn.
    apply known_apart; [done|]. apply elem_of_app. right.
    apply list_elem_of_fmap in Hn as (u & -> & Hu).
    apply list_elem_of_In, in_flat_map in Hu as (b & Hb & Hu).
    destruct (isSleeping b); [done|]. destruct Hu as [<-|[]]. cbn.
    apply list_elem_of_fmap. exists b. split; [done|]. by apply list_elem_of_In.
  - constructor.
Qed.

Lemma step_known e s : ids (known (state_of (step shapes e s))) = ids (known s).
Proof.
  destruct e as [socket|socket nick|socket|r1 r2 r3 r4 r5| |f];
    unfold step; rewrite ?bind_run; cbn [get].
  - by destruct (decide (is_Some (player s !! socket))).
  - destruct (decide (is_Some (player s !! socket))); [|done].
    by rewrite on_join_run.
  - destruct (decide (is_Some (player s !! socket))); [|done].
    rewrite bind_run, on_disconnect_run.
    by destruct (player s !! socket) as [[p|]|].
  - by rewrite spawn_run.
  - done.
  - cbn. unfold known. cbn. apply ids_move.
Qed.

Lemma run_known evs s : ids (known (state_of (run shapes evs s))) = ids (known s).
Proof.
  revert s. induction evs as [|e evs IH]; intros s; [done|].
  unfold run. cbn [forEach]. rewrite state_of_bind.
  etrans; [apply IH|]. apply step_known.
Qed.

Lemma run_silent evs s :
  Inv s -> silent_about (ids (known s)) (output_of (run shapes evs s)).
Proof.
  revert s. induction evs as [|e evs IH]; intros s HI; [constructor|].
  unfold run. cbn [forEach]. rewrite output_of_bind. apply Forall_app. split.
  - by apply step_silent.
  - rewrite <- (step_known e s). apply IH. by apply Inv_step.
Qed.

Lemma step_singular e s :
  Inv s -> Forall singular (output_of (step shapes e s)).
Proof.
  intros HI. pose proof HI as [Hnd Hfr Hw Hst Hdy Hte Hbd Hown].
  destruct (listeners_informing _ Hst) as (Hs1 & Hs2 & Hs3 & Hs4).
  destruct (listeners_informing _ Hdy) as (Hd1 & Hd2 & Hd3 & Hd4).
  destruct e as [socket|socket nick|socket|r1 r2 r3 r4 r5| |f];
    unfold step; rewrite ?bind_run; cbn [get].
  - destruct (decide (is_Some (player s !! socket))); constructor.
  - destruct (decide (is_Some (player s !! socket))); [|constructor].
    rewrite on_join_run, Hd1, Hd2. unfold snapshot.
    destruct (bodies (static s) ++ bodies (dynamic s)); repeat constructor.
  - destruct (decide (is_Some (player s !! socket))); [|constructor].
    rewrite bind_run, on_disconnect_run.
    destruct (player s !! socket) as [[p|]|] eqn:Hp; cbn; try constructor.
    rewrite Hd3, Hd4. repeat constructor.
  - rewrite spawn_run, Hs1, Hs2. repeat constructor.
  - repeat constructor.
  - constructor.
Qed.

Lemma run_singular evs s :
  Inv s -> Forall singular (output_of (run shapes evs s)).
Proof.
  revert s. induction evs as [|e evs IH]; intros s HI; [constructor|].
  unfold run. cbn [forEach]. rewrite output_of_bind. apply Forall_app. split.
  - by apply step_singular.
  - apply IH. by apply Inv_step.
Qed.

Lemma remove_first_split n l :
  NoDup (ids l) -> n ∈ ids l ->
  exists before b after,
    l = before ++ b :: after /\ id b = n /\
    remove_first n l = before ++ after /\
    Forall (fun c => id c ≠ n) (before ++ after).
Proof.
  induction l as [|c l IH]; [by intros _ ?%elem_of_nil|].
  change (ids (c :: l)) with (id c :: ids l). cbn [remove_first].
  intros [Hc Hl]%NoDup_cons Hin. case_bool_decide as Hn.
  - exists [], c, l. repeat split; try done. cbn.
    apply Forall_forall. intros b Hb Heq. apply Hc. rewrite Hn, <- Heq.
    apply list_elem_of_fmap. by exists b.
  - apply elem_of_cons in Hin as [Heq|Hin]; [congruence|].
    destruct (IH Hl Hin) as (before & b & after & -> & Hb & Hrm & Hall).
    exists (c :: before), b, after. repeat split; try done.
    + cbn. by rewrite Hrm.
    + cbn. by constructor.
Qed.

Lemma gamestate_filter (l : list Body) :
  flat_map (fun b => if isSleeping b then [] else [update_of b]) l =
  map update_of (filter awake l).
Proof.
  induction l as [|b l IH]; [done|]. cbn [flat_map]. rewrite IH.
  unfold awake at 2. destruct (isSleeping b) eqn:Hb.
  - by rewrite filter_cons_False by (unfold awake; congruence).
  - by rewrite filter_cons_True by done.
Qed.

(** ** The claims about the running server *)

(** C1: when a [join] arrives in any state the server can be in, the
    handler first acknowledges the new player's id and sends the private
    snapshot (the render-info of every static and dynamic body of that
    state, and no message at all when there is none) while [dynamic] is
    still as it was; only its last statement adds the player to
    [dynamic], which triggers the public [add].  No record of the
    snapshot carries the id of the new player. *)
Theorem join_snapshot_precedes_add (evs : list Event) (socket : SocketId) (nick : string) :
  let s := state_of (serve shapes evs) in
  let existing := bodies (static s) ++ bodies (dynamic s) in
  let p := new_player shapes nick s in
  let private :=
    match existing with
    | [] => []
    | _ :: _ => [SocketEmit socket "add" (PInfos (map bodyInfo existing))]
    end in
  exists s1 s2,
    join_bootstrap shapes socket nick s = (p, s1, SendId socket (id p) :: private) /\
    bodies (dynamic s1) = bodies (dynamic s) /\
    bodies (static s1) = bodies (static s) /\
    Composite_add Dynamic (OBody p) s1 = (tt, s2, [IoEmit "add" (PInfo (bodyInfo p))]) /\
    bodies (dynamic s2) = bodies (dynamic s) ++ [p] /\
    on_join shapes socket nick s =
      (tt, s2, SendId socket (id p) :: private ++ [IoEmit "add" (PInfo (bodyInfo p))]) /\
    Forall (fun info => ri_id info ≠ id p) (map bodyInfo existing).
Proof.
  intros s existing p private.
  pose proof (Inv_serve evs) as HI. fold s in HI.
  pose proof HI as [Hnd Hfr Hw Hst Hdy Hte Hbd Hown].
  destruct (listeners_informing _ Hdy) as (Hd1 & Hd2 & _ & _).
  assert (Hprivate : snapshot socket s = private).
  { unfold snapshot, private. fold existing. by destruct existing. }
  exists (bootstrapped shapes socket nick s).
  eexists. split; [|split; [|split; [|split; [|split; [|split]]]]].
  - rewrite join_bootstrap_run, Hprivate. reflexivity.
  - reflexivity.
  - reflexivity.
  - rewrite Composite_add_run. cbn [getC bootstrapped dynamic set_socketIds set_player
      set_nextId]. rewrite Hd1, Hd2. reflexivity.
  - reflexivity.
  - rewrite on_join_run, Hprivate, Hd1, Hd2. reflexivity.
  - apply Forall_forall. intros info (b & -> & Hb)%list_elem_of_fmap Heq.
    cbn in Heq. unfold all_ids in Hfr.
    apply Forall_app in Hfr as [_ Hfr]. rewrite <- ids_app, Forall_forall in Hfr.
    assert (id b < nextId s) as Hlt.
    { apply Hfr. apply list_elem_of_fmap. by exists b. }
    pose proof (fresh_id_ge shapes "player" s). lia.
Qed.

(** C2, as the listeners have it: on [static] and on [dynamic], adding
    one body, alone or as an array of one, broadcasts [add] with the bare
    record, and adding an empty array or two or more bodies broadcasts
    the array of records; removing a body passed alone broadcasts
    [remove] with the bare id, and removing an array of bodies broadcasts
    the array of ids whatever its length.  The server itself adds and
    removes one body at a time: no broadcast of any run carries an
    array of records or of ids. *)
Theorem add_remove_payload_shape (evs : list Event) :
  let s := state_of (serve shapes evs) in
  Forall (fun c =>
    (forall b, output_of (Composite_add c (OBody b) s) =
               [IoEmit "add" (PInfo (bodyInfo b))]) /\
    (forall b, output_of (Composite_add c (OArray [b]) s) =
               [IoEmit "add" (PInfo (bodyInfo b))]) /\
    output_of (Composite_add c (OArray []) s) = [IoEmit "add" (PInfos [])] /\
    (forall b1 b2 l, output_of (Composite_add c (OArray (b1 :: b2 :: l)) s) =
               [IoEmit "add" (PInfos (map bodyInfo (b1 :: b2 :: l)))]) /\
    (forall b, output_of (Composite_remove c (OBody b) s) =
               [IoEmit "remove" (PId (id b))]) /\
    (forall l, output_of (Composite_remove c (OArray l) s) =
               [IoEmit "remove" (PIds (map id l))]))
  [Static; Dynamic] /\
  Forall singular (output_of (serve shapes evs)).
Proof.
  intros s. split; [|rewrite serve_run; apply run_singular, Inv_booted].
  pose proof (Inv_serve evs) as HI. fold s in HI.
  destruct HI as [Hnd Hfr Hw Hst Hdy Hte Hbd Hown].
  destruct (listeners_informing _ Hst) as (Hs1 & Hs2 & Hs3 & Hs4).
  destruct (listeners_informing _ Hdy) as (Hd1 & Hd2 & Hd3 & Hd4).
  repeat constructor; intros;
    rewrite ?Composite_add_run, ?Composite_remove_run; cbn [getC output_of snd];
    rewrite ?Hs1, ?Hs2, ?Hs3, ?Hs4, ?Hd1, ?Hd2, ?Hd3, ?Hd4; reflexivity.
Qed.

(** C5: whatever events the server handles, no message it sends (so no
    [add] and no [remove]) mentions the id of a known body; the known
    bodies are the terrain alone, from [createWorld] on. *)
Theorem known_never_announced (evs : list Event) :
  let res := serve shapes evs in
  ids (known (state_of res)) = [terrain_id shapes] /\
  Forall (fun m => Forall (fun n => n ∉ ids (known (state_of res))) (mentioned m))
    (output_of res).
Proof.
  intros res. unfold res. rewrite serve_run.
  rewrite run_known. split; [reflexivity|].
  apply (run_silent evs (booted shapes) Inv_booted).
Qed.

(** C6: whatever events the server handles, no id occurs twice in the
    list of the ids of the known, static and dynamic bodies: a body's id
    is in one collection only. *)
Theorem categories_disjoint (evs : list Event) :
  let s := state_of (serve shapes evs) in
  NoDup (ids (known s) ++ ids (bodies (static s)) ++ ids (bodies (dynamic s))).
Proof. intros s. apply (inv_nodup _ (Inv_serve evs)). Qed.

(** C7: in any state the server can be in, the disconnect handler of a
    connection whose [player] is undefined changes nothing and sends
    nothing.  When [player] is set, exactly that body leaves [dynamic],
    one [remove] with its bare id is broadcast, and its entry of
    [socketIds] is deleted; nothing else changes. *)
Theorem disconnect_removes_bound_player (evs : list Event) (socket : SocketId) :
  let s := state_of (serve shapes evs) in
  match player s !! socket with
  | Some (Some p) =>
      exists before b after,
        bodies (dynamic s) = before ++ b :: after /\
        id b = id p /\
        Forall (fun c => id c ≠ id p) (before ++ after) /\
        on_disconnect socket s =
          (tt,
           set_socketIds (delete (id p) (socketIds s))
             (setC Dynamic (set_bodies (before ++ after) (dynamic s)) s),
           [IoEmit "remove" (PId (id p))])
  | _ => on_disconnect socket s = (tt, s, [])
  end.
Proof.
  intros s. pose proof (Inv_serve evs) as HI. fold s in HI.
  destruct HI as [Hnd Hfr Hw Hst Hdy Hte Hbd Hown].
  destruct (listeners_informing _ Hdy) as (_ & _ & Hd3 & Hd4).
  rewrite on_disconnect_run.
  destruct (player s !! socket) as [[p|]|] eqn:Hp; try reflexivity.
  unfold all_ids in Hnd. apply NoDup_app in Hnd as (_ & _ & Hnd).
  apply NoDup_app in Hnd as (_ & _ & Hnd).
  destruct (remove_first_split (id p) _ Hnd (Hbd _ _ Hp))
    as (before & b & after & Hsplit & Hb & Hrm & Hall).
  exists before, b, after. repeat split; try done.
  rewrite Hrm, Hd3, Hd4. reflexivity.
Qed.

(** C10: when a [join] arrives in any state with at least one static or
    dynamic body, the private [add] carries the array of all their
    records (an array of one record when there is one body), whereas the
    public [add] of the new player that follows carries the bare record. *)
Theorem join_snapshot_is_a_sequence (evs : list Event) (socket : SocketId) (nick : string) :
  let s := state_of (serve shapes evs) in
  let existing := bodies (static s) ++ bodies (dynamic s) in
  let p := new_player shapes nick s in
  existing ≠ [] ->
  output_of (on_join shapes socket nick s) =
    [SendId socket (id p);
     SocketEmit socket "add" (PInfos (map bodyInfo existing));
     IoEmit "add" (PInfo (bodyInfo p))].
Proof.
  intros s existing p Hne.
  pose proof (Inv_serve evs) as HI. fold s in HI.
  destruct HI as [Hnd Hfr Hw Hst Hdy Hte Hbd Hown].
  destruct (listeners_informing _ Hdy) as (Hd1 & Hd2 & _ & _).
  rewrite on_join_run, Hd1, Hd2. unfold snapshot. fold existing.
  destruct existing; [done|]. reflexivity.
Qed.

(** X1: in any state the server can be in, the spawn timer adds one new
    bag at the end of [static], leaves every other collection alone and
    broadcasts one [add] with the bag's bare record, which has the shape
    ["bag"] and no angle. *)
Theorem spawn_adds_one_bag (evs : list Event) (r1 r2 r3 r4 r5 : number) :
  let s := state_of (serve shapes evs) in
  let bag := new_bag shapes r1 r2 r3 r4 r5 s in
  let res := spawn shapes r1 r2 r3 r4 r5 s in
  output_of res = [IoEmit "add" (PInfo (bodyInfo bag))] /\
  bodies (static (state_of res)) = bodies (static s) ++ [bag] /\
  bodies (dynamic (state_of res)) = bodies (dynamic s) /\
  known (state_of res) = known s /\
  ri_shape (bodyInfo bag) = Some "bag"%string /\
  ri_angle (bodyInfo bag) = None.
Proof.
  intros s bag res. pose proof (Inv_serve evs) as HI. fold s in HI.
  destruct (listeners_informing _ (inv_static _ HI)) as (Hs1 & Hs2 & _ & _).
  unfold res. rewrite spawn_run, Hs1, Hs2. repeat split.
Qed.

(** X2: the first [join] after [createWorld], when the terrain is the
    only body and the outline of a player is convex, so that
    [Bodies.fromVertices] puts the body at the point asked for: the
    client gets the id of its player and no private [add]; the public
    [add] carries the player's record with its id, the shape
    ["player"], the starting position (0, -300) and the angle 0. *)
Theorem first_join_in_empty_world (socket : SocketId) (nick : string) :
  let n := fresh_id shapes "player" (booted shapes) in
  shapes "player" = Convex ->
  output_of (on_join shapes socket nick (booted shapes)) =
    [SendId socket n;
     IoEmit "add"
       (PInfo {| ri_id := n;
                 ri_shape := Some "player"%string;
                 ri_position := {| Vector.x := of_Z 0; Vector.y := of_Z (-300) |};
                 ri_angle := Some (of_Z 0) |})].
Proof.
  intros n Hconvex. rewrite on_join_run.
  destruct (listeners_informing (dynamic (booted shapes)) eq_refl)
    as (Hd1 & Hd2 & _ & _).
  rewrite Hd1, Hd2. unfold new_player, place. rewrite Hconvex. reflexivity.
Qed.

(** X3: in any state the server can be in, the player of an open
    connection is one of the dynamic bodies, and no other connection has
    a player with the same id. *)
Theorem bound_player_is_dynamic (evs : list Event) (socket : SocketId) (p : Body) :
  let s := state_of (serve shapes evs) in
  player s !! socket = Some (Some p) ->
  id p ∈ ids (bodies (dynamic s)) /\
  forall socket' p',
    player s !! socket' = Some (Some p') -> id p' = id p -> socket' = socket.
Proof.
  intros s Hp. pose proof (Inv_serve evs) as HI. fold s in HI. split.
  - exact (inv_bound _ HI _ _ Hp).
  - intros socket' p' Hp' Heq. exact (inv_owner _ HI _ _ _ _ Hp' Hp Heq).
Qed.

End Reachable.

(** ** Further properties of the running server *)

Lemma remove_first_elem n m l :
  NoDup (ids l) -> n ∈ ids (remove_first m l) <-> n ∈ ids l /\ n ≠ m.
Proof.
  intros Hnd. split.
  - rewrite (remove_first_filter _ _ Hnd). unfold ids.
    intros (b & -> & Hb)%list_elem_of_fmap.
    apply list_elem_of_filter in Hb as [Hne Hb]. split; [|done].
    apply list_elem_of_fmap. by exists b.
  - intros [Hin Hne]. by apply remove_first_keeps.
Qed.

Lemma remove_first_absent n l : n ∉ ids l -> remove_first n l = l.
Proof.
  induction l as [|b l IH]; [done|]. cbn. intros Hn.
  apply not_elem_of_cons in Hn as [Hb Hl].
  case_bool_decide; [congruence|]. f_equal. by apply IH.
Qed.

Lemma visible_spec s n :
  n ∈ visible s <-> n ∈ ids (bodies (static s)) \/ n ∈ ids (bodies (dynamic s)).
Proof. unfold visible. by rewrite elem_of_list_to_set, elem_of_app. Qed.

Lemma elem_of_single (n m : nat) : n ∈ (list_to_set [m] : gset nat) <-> n = m.
Proof. by rewrite elem_of_list_to_set, list_elem_of_singleton. Qed.

Lemma disjoint_single (m : nat) (X : gset nat) : m ∉ X -> (list_to_set [m] : gset nat) ## X.
Proof. intros Hm n ->%elem_of_single. done. Qed.

Lemma visible_snoc_dynamic s s' b :
  bodies (static s') = bodies (static s) ->
  bodies (dynamic s') = bodies (dynamic s) ++ [b] ->
  visible s' = visible s ∪ list_to_set [id b].
Proof.
  intros Hs Hd. apply set_eq. intros n.
  rewrite elem_of_union, !visible_spec, Hs, Hd, ids_app, elem_of_app.
  rewrite elem_of_list_to_set. cbn. tauto.
Qed.

Lemma visible_snoc_static s s' b :
  bodies (static s') = bodies (static s) ++ [b] ->
  bodies (dynamic s') = bodies (dynamic s) ->
  visible s' = visible s ∪ list_to_set [id b].
Proof.
  intros Hs Hd. apply set_eq. intros n.
  rewrite elem_of_union, !visible_spec, Hs, Hd, ids_app, elem_of_app.
  rewrite elem_of_list_to_set. cbn. tauto.
Qed.

Lemma track_app socket view out1 out2 :
  track socket view (out1 ++ out2) =
  match track socket view out1 with
  | Some view' => track socket view' out2
  | None => None
  end.
Proof.
  revert view. induction out1 as [|m out1 IH]; intros view; [done|].
  cbn. destruct (receive socket view m); [apply IH|done].
Qed.

Section Traces.

Variable shapes : string -> Outline.

Lemma inv_dyn_nodup s : Inv s -> NoDup (ids (bodies (dynamic s))).
Proof.
  intros [Hnd _ _ _ _ _ _ _]. unfold all_ids in Hnd.
  apply NoDup_app in Hnd as (_ & _ & Hnd). by apply NoDup_app in Hnd as (_ & _ & Hnd).
Qed.

Lemma inv_visible_fresh s n : Inv s -> nextId s <= n -> n ∉ visible s.
Proof.
  intros [_ Hfr _ _ _ _ _ _] Hn. unfold all_ids in Hfr.
  apply Forall_app in Hfr as [_ Hfr]. rewrite Forall_forall in Hfr.
  unfold visible. rewrite elem_of_list_to_set. intros Hin. specialize (Hfr _ Hin). lia.
Qed.

Lemma inv_static_dynamic s n :
  Inv s -> n ∈ ids (bodies (static s)) -> n ∉ ids (bodies (dynamic s)).
Proof.
  intros [Hnd _ _ _ _ _ _ _] Hs Hd. unfold all_ids in Hnd.
  apply NoDup_app in Hnd as (_ & _ & Hnd). apply NoDup_app in Hnd as (_ & Hnd & _).
  by apply (Hnd n).
Qed.

Lemma snapshot_tracks socket socket' s view :
  view ⊆ visible s ->
  exists view', track socket view (snapshot socket' s) = Some view' /\
                view' ⊆ visible s /\
                (socket' = socket -> view' = visible s).
Proof.
  intros Hsub. unfold snapshot.
  destruct (bodies (static s) ++ bodies (dynamic s)) as [|b l] eqn:Hl.
  - exists view. split; [done|]. split; [done|]. intros _.
    assert (visible s = ∅) as Hv.
    { unfold visible. by rewrite <- ids_app, Hl. }
    rewrite Hv in *. apply set_eq. intros n. split; [apply Hsub|]. by intros ?%elem_of_empty.
  - cbn [track receive]. unfold payload_set. cbn [payload_ids].
    rewrite map_ri_id, <- Hl, ids_app. fold (visible s).
    case_bool_decide.
    + eexists. split; [done|]. split.
      * by apply union_least.
      * intros _. by apply subseteq_union_1_L.
    + exists view. split; [done|]. split; [done|]. intros Heq. congruence.
Qed.

(** One event keeps a client that knows the visible ids in step. *)
Lemma step_tracks socket e s :
  Inv s ->
  track socket (visible s) (output_of (step shapes e s)) =
  Some (visible (state_of (step shapes e s))).
Proof.
  intros HI. pose proof HI as [Hnd Hfr Hw Hst Hdy Hte Hbd Hown].
  destruct (listeners_informing _ Hst) as (Hs1 & Hs2 & Hs3 & Hs4).
  destruct (listeners_informing _ Hdy) as (Hd1 & Hd2 & Hd3 & Hd4).
  destruct e as [socket'|socket' nick|socket'|r1 r2 r3 r4 r5| |f];
    unfold step; rewrite ?bind_run; cbn [get].
  - by destruct (decide (is_Some (player s !! socket'))).
  - destruct (decide (is_Some (player s !! socket'))); [|done].
    rewrite on_join_run, Hd1, Hd2.
    cbn [output_of state_of fst snd app map listener_msg renderInfo concat_obj track receive].
    destruct (snapshot_tracks socket socket' s (visible s)) as (v & Hv & Hsub & _); [done|].
    rewrite track_app, Hv.
    assert (v = visible s) as -> .
    { apply set_eq. intros n. split; [apply Hsub|].
      revert Hv. unfold snapshot.
      destruct (bodies (static s) ++ bodies (dynamic s)) as [|b l]; cbn.
      - by intros [= ->].
      - case_bool_decide; intros [= <-]; [|done]. intros ?. apply elem_of_union. by left. }
    cbn [track receive]. rewrite bool_decide_eq_true_2 by done.
    unfold payload_set. cbn [payload_ids bodyInfo ri_id new_player Body_create id].
    pose proof (fresh_id_ge shapes "player" s) as Hge.
    pose proof (inv_visible_fresh s _ HI Hge) as Hnew.
    rewrite bool_decide_eq_true_2 by (by apply disjoint_single). f_equal.
    symmetry. by apply (visible_snoc_dynamic s _ (new_player shapes nick s)).
  - destruct (decide (is_Some (player s !! socket'))); [|done].
    rewrite bind_run, on_disconnect_run.
    destruct (player s !! socket') as [[p|]|] eqn:Hp; [|done|done].
    rewrite Hd3, Hd4.
    cbn [output_of state_of fst snd app map listener_msg modify track receive].
    cbn [track receive].
    rewrite bool_decide_eq_false_2 by done. rewrite bool_decide_eq_true_2 by done.
    unfold payload_set. cbn [payload_ids].
    pose proof (Hbd _ _ Hp) as Hin.
    rewrite bool_decide_eq_true_2.
    2:{ intros n ->%elem_of_single. apply visible_spec. by right. }
    f_equal. apply set_eq. intros n.
    rewrite elem_of_difference, !visible_spec, elem_of_single.
    cbn [setC static dynamic set_socketIds set_player set_bodies bodies].
    rewrite (remove_first_elem _ _ _ (inv_dyn_nodup s HI)).
    split.
    + intros [[Hn|Hn] Hne]; [by left|]. by right.
    + intros [Hn|[Hn Hne]].
      * split; [by left|]. intros ->. by apply (inv_static_dynamic s (id p) HI Hn).
      * split; [by right|done].
  - rewrite spawn_run, Hs1, Hs2.
    cbn [output_of state_of fst snd app map listener_msg renderInfo concat_obj track receive].
    rewrite bool_decide_eq_true_2 by done.
    unfold payload_set. cbn [payload_ids bodyInfo ri_id new_bag Body_create id].
    pose proof (fresh_id_ge shapes "bag" s) as Hge.
    pose proof (inv_visible_fresh s _ HI Hge) as Hnew.
    rewrite bool_decide_eq_true_2 by (by apply disjoint_single). f_equal.
    symmetry. by apply (visible_snoc_static s _ (new_bag shapes r1 r2 r3 r4 r5 s)).
  - unfold emitRegularUpdates. rewrite bind_run.
    cbn [get emit output_of state_of fst snd app track receive].
    rewrite bool_decide_eq_true_2; [done|].
    intros n Hn. apply visible_spec. right.
    unfold payload_set in Hn. cbn [payload_ids] in Hn.
    apply elem_of_list_to_set in Hn.
    apply list_elem_of_fmap in Hn as (u & -> & Hu).
    apply list_elem_of_In, in_flat_map in Hu as (b & Hb & Hu).
    destruct (isSleeping b); [done|]. destruct Hu as [<-|[]]. cbn.
    apply list_elem_of_fmap. exists b. split; [done|]. by apply list_elem_of_In.
  - cbn. unfold visible. cbn. by rewrite !ids_move.
Qed.

Lemma run_tracks socket evs s :
  Inv s ->
  track socket (visible s) (output_of (run shapes evs s)) =
  Some (visible (state_of (run shapes evs s))).
Proof.
  revert s. induction evs as [|e evs IH]; intros s HI; [done|].
  unfold run. cbn [forEach]. rewrite output_of_bind, state_of_bind, track_app.
  rewrite step_tracks by done. apply IH. by apply Inv_step.
Qed.

(** X4: a client that knows the ids of the static and dynamic bodies
    of any state the server can be in, and then follows the messages of
    any further events, never gets a broadcast [add] of an id it has,
    nor a [remove] or an [update] of an id it does not have, and ends
    with exactly the ids of the static and dynamic bodies of the state
    reached.  Only the private [add] of its own join names ids it may
    have already. *)
Theorem broadcasts_keep_clients_in_step (evs1 evs2 : list Event) (socket : SocketId) :
  let s := state_of (serve shapes evs1) in
  let res := run shapes evs2 s in
  track socket (visible s) (output_of res) = Some (visible (state_of res)).
Proof. intros s res. apply run_tracks, Inv_serve. Qed.

(** X5: in any state the server can be in, a client that knows any
    part of the static and dynamic ids (none, when it has just
    connected) and joins holds, after the messages of its own join,
    exactly the ids of the static and dynamic bodies: the private
    snapshot brings what it lacked and the public [add] its own
    player. *)
Theorem join_synchronises_any_view
  (evs : list Event) (socket : SocketId) (nick : string) (view : gset nat) :
  let s := state_of (serve shapes evs) in
  let res := on_join shapes socket nick s in
  view ⊆ visible s ->
  track socket view (output_of res) = Some (visible (state_of res)).
Proof.
  intros s res Hsub. pose proof (Inv_serve shapes evs) as HI. fold s in HI.
  destruct (listeners_informing _ (inv_dynamic _ HI)) as (Hd1 & Hd2 & _ & _).
  unfold res. rewrite on_join_run, Hd1, Hd2.
  cbn [output_of state_of fst snd app map listener_msg renderInfo concat_obj track receive].
  rewrite track_app.
  destruct (snapshot_tracks socket socket s view Hsub) as (v & -> & _ & Hv).
  rewrite (Hv eq_refl).
  cbn [track receive]. rewrite bool_decide_eq_true_2 by done.
  unfold payload_set. cbn [payload_ids bodyInfo ri_id new_player Body_create id].
  pose proof (fresh_id_ge shapes "player" s) as Hge.
  pose proof (inv_visible_fresh s _ HI Hge) as Hnew.
  rewrite bool_decide_eq_true_2 by (by apply disjoint_single). f_equal.
  symmetry. by apply (visible_snoc_dynamic s _ (new_player shapes nick s)).
Qed.

(** *** [socketIds] *)

Lemma Linked_booted : Linked (booted shapes).
Proof.
  split; cbn.
  - intros n. rewrite lookup_empty. split; [by intros []|by intros ?%elem_of_nil].
  - intros socket p. by rewrite lookup_empty.
Qed.

Lemma Linked_step e s : Inv s -> Linked s -> Linked (state_of (step shapes e s)).
Proof.
  intros HI [Hdom Hbound]. pose proof HI as [Hnd Hfr Hw Hst Hdy Hte Hbd Hown].
  destruct e as [socket|socket nick|socket|r1 r2 r3 r4 r5| |f];
    unfold step; rewrite ?bind_run; cbn [get].
  - destruct (decide (is_Some (player s !! socket))) as [Hs|Hs]; [done|].
    unfold on_connection, modify, state_of. cbn [fst snd].
    split; cbn [socketIds dynamic player set_player]; [done|].
    intros socket' p. destruct (decide (socket = socket')) as [<-|Hne].
    + by rewrite lookup_insert_eq.
    + rewrite lookup_insert_ne by done. apply Hbound.
  - destruct (decide (is_Some (player s !! socket))) as [Hs|Hs]; [|done].
    rewrite on_join_run. unfold state_of. cbn [fst snd].
    pose proof (fresh_id_ge shapes "player" s) as Hge.
    assert (Hnew : fresh_id shapes "player" s ∉ ids (bodies (dynamic s))).
    { intros Hin. apply (inv_visible_fresh s _ HI Hge), visible_spec. by right. }
    split; cbn [setC bootstrapped socketIds dynamic player set_socketIds set_player
      set_nextId set_bodies bodies new_player Body_create id].
    + intros n. rewrite lookup_insert_is_Some, ids_app, elem_of_app, Hdom. cbn.
      rewrite list_elem_of_singleton. split.
      * intros [ <- | [_ Hn] ]; [by right|by left].
      * intros [Hn | ->]; [|by left]. right. split; [|done]. by intros <-.
    + intros socket' p. destruct (decide (socket = socket')) as [<-|Hne].
      * rewrite lookup_insert_eq. intros [= <-]. cbn. by rewrite lookup_insert_eq.
      * rewrite lookup_insert_ne by done. intros Hp.
        rewrite lookup_insert_ne; [by apply Hbound|].
        intros Heq. apply Hnew. rewrite Heq. eauto.
  - destruct (decide (is_Some (player s !! socket))) as [Hs|Hs]; [|done].
    rewrite bind_run, on_disconnect_run.
    destruct (player s !! socket) as [[p|]|] eqn:Hp.
    + unfold state_of, modify. cbn [fst snd].
      split; cbn [setC socketIds dynamic player set_socketIds set_player set_bodies bodies].
      * intros n. rewrite lookup_delete_is_Some, Hdom.
        rewrite (remove_first_elem _ _ _ (inv_dyn_nodup s HI)).
        split; intros [? ?]; split; done.
      * intros socket' q. destruct (decide (socket = socket')) as [<-|Hne].
        -- by rewrite lookup_delete_eq.
        -- rewrite lookup_delete_ne by done. intros Hq.
           rewrite lookup_delete_ne; [by apply Hbound|].
           intros Heq. apply Hne. eapply Hown; eauto.
    + unfold state_of, modify. cbn [fst snd].
      split; cbn [socketIds dynamic player set_player]; [done|].
      intros socket' q. destruct (decide (socket = socket')) as [<-|Hne].
      * by rewrite lookup_delete_eq.
      * rewrite lookup_delete_ne by done. apply Hbound.
    + by destruct Hs.
  - rewrite spawn_run. unfold state_of. cbn [fst snd]. split; cbn; done.
  - done.
  - unfold engine_update, modify, state_of. cbn [fst snd].
    split; cbn [socketIds dynamic player set_bodies bodies]; rewrite ?ids_move; [done|].
    intros socket p. rewrite lookup_fmap.
    destruct (player s !! socket) as [[q|]|] eqn:Hq; cbn; try done.
    intros [= <-]. cbn. eauto.
Qed.

Lemma Linked_run evs s :
  Inv s -> Linked s -> Linked (state_of (run shapes evs s)).
Proof.
  revert s. induction evs as [|e evs IH]; intros s HI HL; [done|].
  unfold run. cbn [forEach]. rewrite state_of_bind.
  apply IH; [by apply Inv_step|by apply Linked_step].
Qed.

(** X6: whatever events the server handles, [socketIds] has an entry
    for exactly the ids of the dynamic bodies, and the entry of the
    player of an open connection is that connection. *)
Theorem socketIds_tracks_dynamic (evs : list Event) :
  let s := state_of (serve shapes evs) in
  (forall n, is_Some (socketIds s !! n) <-> n ∈ ids (bodies (dynamic s))) /\
  (forall socket p, player s !! socket = Some (Some p) ->
                    socketIds s !! id p = Some socket).
Proof.
  intros s. unfold s. rewrite serve_run.
  destruct (Linked_run evs (booted shapes) (Inv_booted shapes) Linked_booted)
    as [Hdom Hbound].
  split; done.
Qed.

(** *** What the bodies of each collection are *)

Lemma Forall_remove_first (P : Body -> Prop) n l :
  Forall P l -> Forall P (remove_first n l).
Proof.
  induction 1 as [|b l Hb Hl IH]; cbn; [constructor|].
  case_bool_decide; [done|by constructor].
Qed.

Lemma Forall_move (P : Body -> Prop) f l :
  (forall b, P b -> P (move f b)) -> Forall P l -> Forall P (map (move f) l).
Proof. intros HP Hl. apply Forall_fmap. eapply Forall_impl; [exact Hl|exact HP]. Qed.

Lemma Kinds_step e s : Kinds s -> Kinds (state_of (step shapes e s)).
Proof.
  intros [Hk Hs Hd].
  destruct e as [socket|socket nick|socket|r1 r2 r3 r4 r5| |f];
    unfold step; rewrite ?bind_run; cbn [get].
  - by destruct (decide (is_Some (player s !! socket))).
  - destruct (decide (is_Some (player s !! socket))); [|done].
    rewrite on_join_run. unfold state_of. cbn [fst snd].
    split; unfold known; cbn; try done.
    apply Forall_app. split; [done|]. apply Forall_singleton.
    unfold is_new_player. cbn. by repeat split.
  - destruct (decide (is_Some (player s !! socket))); [|done].
    rewrite bind_run, on_disconnect_run.
    destruct (player s !! socket) as [[p|]|]; try done.
    unfold state_of. cbn [fst snd modify].
    split; unfold known; cbn; try done. by apply Forall_remove_first.
  - rewrite spawn_run. unfold state_of. cbn [fst snd].
    split; unfold known; cbn; try done.
    apply Forall_app. split; [done|]. apply Forall_singleton.
    unfold is_bag. cbn. by repeat split.
  - done.
  - unfold engine_update, modify, state_of. cbn [fst snd].
    split; unfold known; cbn; by apply Forall_move.
Qed.

Lemma Kinds_run evs s : Kinds s -> Kinds (state_of (run shapes evs s)).
Proof.
  revert s. induction evs as [|e evs IH]; intros s HK; [done|].
  unfold run. cbn [forEach]. rewrite state_of_bind. by apply IH, Kinds_step.
Qed.

Lemma Kinds_booted : Kinds (booted shapes).
Proof. split; unfold known; cbn; repeat constructor. Qed.

(** X7: whatever events the server handles, the known body has none
    of the extra properties, every static body is a bag (shape ["bag"],
    with points, sword and shield, without nickname, health or tokens)
    and every dynamic body is a player with a nickname and the
    attributes it was created with (health 100, tokens 100, sword 0,
    shield 0, no points); so the record of a dynamic body carries its
    angle and that of a static or known body carries none. *)
Theorem collections_hold_their_kind (evs : list Event) :
  let s := state_of (serve shapes evs) in
  Forall (fun b => is_plain b /\ ri_angle (bodyInfo b) = None) (known s) /\
  Forall (fun b => is_bag b /\ ri_angle (bodyInfo b) = None) (bodies (static s)) /\
  Forall (fun b => is_new_player b /\ ri_angle (bodyInfo b) = Some (angle b))
    (bodies (dynamic s)).
Proof.
  intros s. unfold s. rewrite serve_run.
  destruct (Kinds_run evs _ Kinds_booted) as [Hk Hs Hd].
  repeat split.
  - eapply Forall_impl; [exact Hk|]. intros b Hb. split; [done|].
    destruct Hb as [Hb _]. unfold bodyInfo. cbn. by rewrite Hb.
  - eapply Forall_impl; [exact Hs|]. intros b Hb. split; [done|].
    destruct Hb as [Hb _]. unfold bodyInfo. cbn. by rewrite Hb.
  - eapply Forall_impl; [exact Hd|]. intros b Hb. split; [done|].
    destruct Hb as [Hb _]. unfold bodyInfo. cbn. by rewrite Hb.
Qed.

(** *** Every id is announced once *)

Lemma step_nextId e s : nextId s <= nextId (state_of (step shapes e s)).
Proof.
  destruct e as [socket|socket nick|socket|r1 r2 r3 r4 r5| |f];
    unfold step; rewrite ?bind_run; cbn [get].
  - by destruct (decide (is_Some (player s !! socket))).
  - destruct (decide (is_Some (player s !! socket))); [|done].
    rewrite on_join_run. cbn.
    pose proof (fresh_id_ge shapes "player" s). lia.
  - destruct (decide (is_Some (player s !! socket))); [|done].
    rewrite bind_run, on_disconnect_run.
    by destruct (player s !! socket) as [[p|]|].
  - rewrite spawn_run. cbn.
    pose proof (fresh_id_ge shapes "bag" s). lia.
  - done.
  - done.
Qed.

Lemma step_added e s :
  Inv s ->
  let s' := state_of (step shapes e s) in
  let added := flat_map added_ids (output_of (step shapes e s)) in
  NoDup added /\ Forall (fun n => nextId s <= n < nextId s') added.
Proof.
  intros HI. pose proof HI as [Hnd Hfr Hw Hst Hdy Hte Hbd Hown].
  destruct (listeners_informing _ Hst) as (Hs1 & Hs2 & Hs3 & Hs4).
  destruct (listeners_informing _ Hdy) as (Hd1 & Hd2 & Hd3 & Hd4).
  destruct e as [socket|socket nick|socket|r1 r2 r3 r4 r5| |f];
    unfold step; rewrite ?bind_run; cbn [get].
  - destruct (decide (is_Some (player s !! socket))); cbn; split; constructor.
  - destruct (decide (is_Some (player s !! socket))); [|cbn; split; constructor].
    rewrite on_join_run, Hd1, Hd2. cbn [output_of state_of fst snd flat_map added_ids app].
    rewrite flat_map_app.
    assert (flat_map added_ids (snapshot socket s) = []) as ->.
    { unfold snapshot. by destruct (bodies (static s) ++ bodies (dynamic s)). }
    cbn. pose proof (fresh_id_ge shapes "player" s).
    split; [apply NoDup_singleton|]. apply Forall_singleton. lia.
  - destruct (decide (is_Some (player s !! socket))); [|cbn; split; constructor].
    rewrite bind_run, on_disconnect_run.
    destruct (player s !! socket) as [[p|]|]; try (cbn; split; constructor).
    rewrite Hd3, Hd4. cbn. split; constructor.
  - rewrite spawn_run, Hs1, Hs2. cbn.
    pose proof (fresh_id_ge shapes "bag" s).
    split; [apply NoDup_singleton|]. apply Forall_singleton. lia.
  - cbn. split; constructor.
  - cbn. split; constructor.
Qed.

Lemma run_nextId evs s : nextId s <= nextId (state_of (run shapes evs s)).
Proof.
  revert s. induction evs as [|e evs IH]; intros s; [done|].
  unfold run. cbn [forEach]. rewrite state_of_bind.
  etrans; [apply (step_nextId e)|apply IH].
Qed.

Lemma run_added evs s :
  Inv s ->
  let added := flat_map added_ids (output_of (run shapes evs s)) in
  NoDup added /\
  Forall (fun n => nextId s <= n < nextId (state_of (run shapes evs s))) added.
Proof.
  revert s. induction evs as [|e evs IH]; intros s HI; [cbn; split; constructor|].
  unfold run. cbn [forEach]. rewrite output_of_bind, state_of_bind. cbv zeta.
  rewrite flat_map_app.
  destruct (step_added e s HI) as [Hnd1 Hb1].
  destruct (IH _ (Inv_step shapes e s HI)) as [Hnd2 Hb2].
  pose proof (step_nextId e s) as Hle1.
  pose proof (run_nextId evs (state_of (step shapes e s))) as Hle2.
  rewrite Forall_forall in Hb1, Hb2. split.
  - apply NoDup_app. split; [done|]. split; [|done].
    intros n H1 H2. apply Hb1 in H1. apply Hb2 in H2. lia.
  - apply Forall_app. split; apply Forall_forall; intros n Hn.
    + apply Hb1 in Hn. unfold run in Hle2. lia.
    + apply Hb2 in Hn. unfold run in Hn. lia.
Qed.

(** The ids that a later [remove] can name: those of [dynamic] now and
    those not handed out yet. *)
Lemma step_dynamic_ids e s n :
  Inv s ->
  n ∈ ids (bodies (dynamic (state_of (step shapes e s)))) ->
  n ∈ ids (bodies (dynamic s)) \/ nextId s <= n.
Proof.
  intros HI.
  destruct e as [socket|socket nick|socket|r1 r2 r3 r4 r5| |f];
    unfold step; rewrite ?bind_run; cbn [get].
  - destruct (decide (is_Some (player s !! socket))); cbn; by left.
  - destruct (decide (is_Some (player s !! socket))); [|by left].
    rewrite on_join_run. cbn. rewrite ids_app, elem_of_app. cbn.
    rewrite list_elem_of_singleton.
    pose proof (fresh_id_ge shapes "player" s).
    intros [Hn | ->]; [by left|by right].
  - destruct (decide (is_Some (player s !! socket))); [|by left].
    rewrite bind_run, on_disconnect_run.
    destruct (player s !! socket) as [[p|]|]; try (by left).
    cbn. intros Hn. left. eapply sublist_subseteq; [apply remove_first_sublist|done].
  - rewrite spawn_run. cbn. by left.
  - by left.
  - cbn. rewrite ids_move. by left.
Qed.

Lemma run_removed evs s :
  Inv s ->
  let removed := flat_map removed_ids (output_of (run shapes evs s)) in
  NoDup removed /\
  Forall (fun n => n ∈ ids (bodies (dynamic s)) \/ nextId s <= n) removed.
Proof.
  revert s. induction evs as [|e evs IH]; intros s HI; [cbn; split; constructor|].
  unfold run. cbn [forEach]. rewrite output_of_bind. cbv zeta.
  rewrite flat_map_app.
  destruct (IH _ (Inv_step shapes e s HI)) as [Hnd2 Hb2].
  pose proof (step_nextId e s) as Hle1.
  assert (Hb2' : Forall (fun n => n ∈ ids (bodies (dynamic s)) \/ nextId s <= n)
                   (flat_map removed_ids
                      (output_of (run shapes evs (state_of (step shapes e s)))))).
  { eapply Forall_impl; [exact Hb2|]. intros n [Hn|Hn].
    - by apply (step_dynamic_ids e s n HI).
    - right. lia. }
  pose proof HI as [Hnd Hfr Hw Hst Hdy Hte Hbd Hown].
  destruct (listeners_informing _ Hst) as (Hs1 & Hs2 & Hs3 & Hs4).
  destruct (listeners_informing _ Hdy) as (Hd1 & Hd2 & Hd3 & Hd4).
  assert (Hquiet : flat_map removed_ids (output_of (step shapes e s)) = [] ->
                   NoDup (flat_map removed_ids (output_of (step shapes e s)) ++
                          flat_map removed_ids
                            (output_of (run shapes evs
                               (state_of (step shapes e s))))) /\
                   Forall (fun n => n ∈ ids (bodies (dynamic s)) \/ nextId s <= n)
                     (flat_map removed_ids (output_of (step shapes e s)) ++
                      flat_map removed_ids
                        (output_of (run shapes evs
                           (state_of (step shapes e s)))))).
  { intros ->. by split. }
  destruct e as [socket|socket nick|socket|r1 r2 r3 r4 r5| |f].
  - apply Hquiet. unfold step. rewrite bind_run. cbn [get].
    by destruct (decide (is_Some (player s !! socket))).
  - apply Hquiet. unfold step. rewrite bind_run. cbn [get].
    destruct (decide (is_Some (player s !! socket))); [|done].
    rewrite on_join_run, Hd1, Hd2. cbn [output_of snd flat_map removed_ids app].
    rewrite flat_map_app. unfold snapshot.
    by destruct (bodies (static s) ++ bodies (dynamic s)).
  - revert Hquiet Hnd2 Hb2 Hb2'. unfold step. rewrite bind_run. cbn [get].
    destruct (decide (is_Some (player s !! socket))); [|by intros Hq; intros; apply Hq].
    rewrite bind_run, on_disconnect_run.
    destruct (player s !! socket) as [[p|]|] eqn:Hp;
      [|by intros Hq; intros; apply Hq|by intros Hq; intros; apply Hq].
    rewrite Hd3, Hd4.
    cbn [output_of state_of fst snd modify map app listener_msg flat_map removed_ids].
    rewrite bool_decide_eq_true_2 by done. cbn [payload_ids app].
    intros _ Hnd2 Hb2 Hb2'.
    pose proof (Hbd _ _ Hp) as Hin. split.
    + constructor; [|done]. intros Hrem.
      rewrite Forall_forall in Hb2. apply Hb2 in Hrem as [Hrem|Hrem].
      * cbn in Hrem. apply (remove_first_elem _ _ _ (inv_dyn_nodup s HI)) in Hrem.
        by destruct Hrem.
      * cbn in Hrem. unfold all_ids in Hfr. rewrite !Forall_app in Hfr.
        destruct Hfr as (_ & _ & Hfr). rewrite Forall_forall in Hfr.
        apply Hfr in Hin. lia.
    + constructor; [by left|done].
  - apply Hquiet. unfold step. by rewrite spawn_run, Hs1, Hs2.
  - by apply Hquiet.
  - by apply Hquiet.
Qed.

(** X8: in the messages of a whole run no id is broadcast twice in an
    [add] and no id is broadcast twice in a [remove]. *)
Theorem ids_announced_once (evs : list Event) :
  let out := output_of (serve shapes evs) in
  NoDup (flat_map added_ids out) /\ NoDup (flat_map removed_ids out).
Proof.
  intros out. unfold out. rewrite serve_run. split.
  - apply (run_added evs _ (Inv_booted shapes)).
  - apply (run_removed evs _ (Inv_booted shapes)).
Qed.

(** *** Bodies that no connection is bound to *)

Lemma bound_ids_spec s n :
  n ∈ bound_ids s <->
  exists socket p, player s !! socket = Some (Some p) /\ id p = n.
Proof.
  unfold bound_ids. rewrite list_elem_of_omap. split.
  - intros (o & Ho & Hn). apply list_elem_of_fmap in Ho as ([socket o'] & -> & Ho).
    apply elem_of_map_to_list in Ho. cbn in Hn.
    destruct o' as [p|]; [|done]. cbn in Hn. exists socket, p. split; [done|congruence].
  - intros (socket & p & Hp & <-). exists (Some p). split; [|done].
    apply list_elem_of_fmap. exists (socket, Some p). split; [done|].
    by apply elem_of_map_to_list.
Qed.

Lemma unbound_step e s n :
  Inv s ->
  n ∈ ids (bodies (dynamic s)) -> n ∉ bound_ids s ->
  n ∈ ids (bodies (dynamic (state_of (step shapes e s)))) /\
  n ∉ bound_ids (state_of (step shapes e s)).
Proof.
  intros HI Hin Hfree. pose proof HI as [Hnd Hfr Hw Hst Hdy Hte Hbd Hown].
  assert (Hfree' : forall socket p, player s !! socket = Some (Some p) -> id p ≠ n).
  { intros socket p Hp Heq. apply Hfree, bound_ids_spec. eauto. }
  rewrite bound_ids_spec.
  destruct e as [socket|socket nick|socket|r1 r2 r3 r4 r5| |f];
    unfold step; rewrite ?bind_run; cbn [get].
  - destruct (decide (is_Some (player s !! socket))) as [Hs|Hs].
    + split; [done|]. intros (socket' & p & Hp & Heq). by eapply Hfree'.
    + split; [done|]. cbn. intros (socket' & p & Hp & Heq).
      destruct (decide (socket = socket')) as [<-|Hne].
      * by rewrite lookup_insert_eq in Hp.
      * rewrite lookup_insert_ne in Hp by done. by eapply Hfree'.
  - destruct (decide (is_Some (player s !! socket))) as [Hs|Hs].
    2:{ split; [done|]. intros (socket' & p & Hp & Heq). by eapply Hfree'. }
    rewrite on_join_run. unfold state_of. cbn [fst snd].
    cbn [setC bootstrapped dynamic player set_socketIds set_player set_nextId
      set_bodies bodies]. split.
    + rewrite ids_app, elem_of_app. by left.
    + intros (socket' & p & Hp & Heq).
      destruct (decide (socket = socket')) as [<-|Hne].
      * rewrite lookup_insert_eq in Hp. injection Hp as <-. cbn in Heq.
        pose proof (fresh_id_ge shapes "player" s) as Hge.
        apply (inv_visible_fresh s _ HI Hge), visible_spec. right. by rewrite Heq.
      * rewrite lookup_insert_ne in Hp by done. by eapply Hfree'.
  - destruct (decide (is_Some (player s !! socket))) as [Hs|Hs].
    2:{ split; [done|]. intros (socket' & p & Hp & Heq). by eapply Hfree'. }
    rewrite bind_run, on_disconnect_run.
    destruct (player s !! socket) as [[p|]|] eqn:Hp.
    + unfold state_of, modify. cbn [fst snd].
      cbn [setC dynamic player set_socketIds set_player set_bodies bodies]. split.
      * apply remove_first_keeps; [|done]. intros ->. by eapply Hfree'.
      * intros (socket' & q & Hq & Heq).
        apply lookup_delete_Some in Hq as [_ Hq]. by eapply Hfree'.
    + unfold state_of, modify. cbn [fst snd]. cbn [dynamic player set_player].
      split; [done|]. intros (socket' & q & Hq & Heq).
      apply lookup_delete_Some in Hq as [_ Hq]. by eapply Hfree'.
    + by destruct Hs.
  - rewrite spawn_run. unfold state_of. cbn [fst snd].
    cbn [setC dynamic player set_nextId]. split; [done|].
    intros (socket' & p & Hp & Heq). by eapply Hfree'.
  - split; [done|]. intros (socket' & p & Hp & Heq). by eapply Hfree'.
  - unfold engine_update, modify, state_of. cbn [fst snd].
    cbn [dynamic player set_bodies bodies]. rewrite ids_move. split; [done|].
    intros (socket' & p & Hp & Heq). rewrite lookup_fmap in Hp.
    destruct (player s !! socket') as [[q|]|] eqn:Hq; cbn in Hp; try done.
    injection Hp as <-. cbn in Heq. by eapply Hfree'.
Qed.

Lemma unbound_run evs s n :
  Inv s ->
  n ∈ ids (bodies (dynamic s)) -> n ∉ bound_ids s ->
  n ∈ ids (bodies (dynamic (state_of (run shapes evs s)))) /\
  n ∉ bound_ids (state_of (run shapes evs s)).
Proof.
  revert s. induction evs as [|e evs IH]; intros s HI Hin Hfree; [done|].
  unfold run. cbn [forEach]. rewrite state_of_bind.
  destruct (unbound_step e s n HI Hin Hfree) as [Hin' Hfree'].
  apply IH; [by apply Inv_step|done|done].
Qed.

(** X9: a dynamic body that is the player of no open connection (a
    connection joined again, or its connection is gone) is out of reach:
    whatever events follow, it stays in [dynamic], no [remove] names it
    and its entry stays in [socketIds]. *)
Theorem unbound_player_is_never_removed (evs1 evs2 : list Event) (n : nat) :
  let s := state_of (serve shapes evs1) in
  let res := run shapes evs2 s in
  n ∈ ids (bodies (dynamic s)) ->
  n ∉ bound_ids s ->
  n ∈ ids (bodies (dynamic (state_of res))) /\
  (n ∉ flat_map removed_ids (output_of res)) /\
  is_Some (socketIds (state_of res) !! n).
Proof.
  intros s res Hin Hfree.
  pose proof (Inv_serve shapes evs1) as HI. fold s in HI.
  destruct (unbound_run evs2 s n HI Hin Hfree) as [Hin' Hfree']. fold res in Hin', Hfree'.
  split; [done|]. split.
  - clear Hin' Hfree'. unfold res. clearbody s. clear res.
    revert s HI Hin Hfree. induction evs2 as [|e evs IH]; intros s HI Hin Hfree.
    { by intros ?%elem_of_nil. }
    unfold run. cbn [forEach]. rewrite output_of_bind, flat_map_app, elem_of_app.
    destruct (unbound_step e s n HI Hin Hfree) as [Hin' Hfree'].
    intros [Hn|Hn]; [|by eapply (IH (state_of (step shapes e s))); try apply Inv_step].
    pose proof HI as [Hnd Hfr Hw Hst Hdy Hte Hbd Hown].
    destruct (listeners_informing _ Hst) as (Hs1 & Hs2 & Hs3 & Hs4).
    destruct (listeners_informing _ Hdy) as (Hd1 & Hd2 & Hd3 & Hd4).
    revert Hn. clear IH Hin' Hfree'.
    destruct e as [socket|socket nick|socket|r1 r2 r3 r4 r5| |f];
      unfold step; rewrite ?bind_run; cbn [get].
    + destruct (decide (is_Some (player s !! socket))); by intros ?%elem_of_nil.
    + destruct (decide (is_Some (player s !! socket))); [|by intros ?%elem_of_nil].
      rewrite on_join_run, Hd1, Hd2. cbn [output_of snd flat_map removed_ids app].
      rewrite flat_map_app. unfold snapshot.
      destruct (bodies (static s) ++ bodies (dynamic s)); by intros ?%elem_of_nil.
    + destruct (decide (is_Some (player s !! socket))); [|by intros ?%elem_of_nil].
      rewrite bind_run, on_disconnect_run.
      destruct (player s !! socket) as [[p|]|] eqn:Hp; try (by intros ?%elem_of_nil).
      rewrite Hd3, Hd4. cbn. intros ->%list_elem_of_singleton.
      apply Hfree, bound_ids_spec. eauto.
    + rewrite spawn_run, Hs1, Hs2. by intros ?%elem_of_nil.
    + by intros ?%elem_of_nil.
    + by intros ?%elem_of_nil.
  - unfold res, s. rewrite serve_run, <- (serve_run shapes evs1).
    fold s. fold res.
    assert (HL : Linked (state_of res)).
    { unfold res. apply Linked_run; [done|]. unfold s. rewrite serve_run.
      apply Linked_run; [apply Inv_booted|apply Linked_booted]. }
    by apply (linked_dom _ HL).
Qed.

(** *** Private messages *)

Lemma step_private e s :
  Forall (fun m => forall to, receiver m = Some to -> exists nick, e = EvJoin to nick)
    (output_of (step shapes e s)).
Proof.
  destruct e as [socket|socket nick|socket|r1 r2 r3 r4 r5| |f];
    unfold step; rewrite ?bind_run; cbn [get].
  - destruct (decide (is_Some (player s !! socket))); constructor.
  - destruct (decide (is_Some (player s !! socket))); [|constructor].
    rewrite on_join_run. cbn [output_of snd].
    constructor; [|apply Forall_app; split].
    + intros to [= <-]. eauto.
    + unfold snapshot. destruct (bodies (static s) ++ bodies (dynamic s)); [constructor|].
      apply Forall_singleton. intros to [= <-]. eauto.
    + apply Forall_fmap, Forall_forall. by intros [] _ to.
  - destruct (decide (is_Some (player s !! socket))); [|constructor].
    rewrite bind_run, on_disconnect_run.
    destruct (player s !! socket) as [[p|]|]; try constructor.
    cbn [output_of snd modify app]. rewrite app_nil_r.
    apply Forall_fmap, Forall_forall. by intros [] _ to.
  - rewrite spawn_run. cbn [output_of snd].
    apply Forall_fmap, Forall_forall. by intros [] _ to.
  - unfold emitRegularUpdates. rewrite bind_run. cbn. by apply Forall_singleton.
  - constructor.
Qed.

(** X10: the acknowledgement of a join and the private [add] are the
    only messages to a single connection, and a run sends them only to
    connections that sent a [join]. *)
Theorem private_messages_answer_a_join (evs : list Event) :
  Forall (fun m => forall to, receiver m = Some to ->
                   exists nick, EvJoin to nick ∈ evs)
    (output_of (serve shapes evs)).
Proof.
  rewrite serve_run. generalize (booted shapes).
  induction evs as [|e evs IH]; intros s; [constructor|].
  unfold run. cbn [forEach]. rewrite output_of_bind. apply Forall_app. split.
  - eapply Forall_impl; [apply step_private|]. cbn.
    intros m Hm to Hto. destruct (Hm to Hto) as [nick ->].
    exists nick. apply elem_of_cons. by left.
  - eapply Forall_impl; [apply IH|]. cbn.
    intros m Hm to Hto. destruct (Hm to Hto) as [nick Hnick].
    exists nick. apply elem_of_cons. by right.
Qed.

(** *** [pop] *)

(** X11: in any state the server can be in, [pop] of a body that is
    not in [dynamic] leaves the state as it is and still broadcasts
    [remove] with the body's id: [Composite.remove] triggers
    [afterRemove] whether or not it found the body. *)
Theorem pop_of_absent_body (evs : list Event) (entity : Body) :
  let s := state_of (serve shapes evs) in
  id entity ∉ ids (bodies (dynamic s)) ->
  pop entity s = (tt, s, [IoEmit "remove" (PId (id entity))]).
Proof.
  intros s Habsent. pose proof (Inv_serve shapes evs) as HI. fold s in HI.
  destruct (listeners_informing _ (inv_dynamic _ HI)) as (_ & _ & Hd3 & Hd4).
  clearbody s. unfold pop. rewrite Composite_remove_run.
  cbn [getC concat_obj remove_all]. rewrite Hd3, Hd4, remove_first_absent by done.
  destruct s as [? ? ? [] ? ?]. reflexivity.
Qed.

(** *** Joining and leaving *)

Lemma remove_first_snoc b l : id b ∉ ids l -> remove_first (id b) (l ++ [b]) = l.
Proof.
  induction l as [|c l IH]; cbn.
  - intros _. by rewrite bool_decide_eq_true_2.
  - intros [Hc Hl]%not_elem_of_cons. rewrite bool_decide_eq_false_2 by done.
    f_equal. by apply IH.
Qed.

Lemma step_connection_closed socket s :
  player s !! socket = None ->
  step shapes (EvConnection socket) s =
  (tt, set_player (<[socket := None]> (player s)) s, []).
Proof.
  intros Hclosed. unfold step. rewrite bind_run. cbn [get].
  destruct (decide (is_Some (player s !! socket))) as [Hs|_]; [|done].
  rewrite Hclosed in Hs. by destruct Hs.
Qed.

Lemma step_join_open socket nick s :
  is_Some (player s !! socket) ->
  step shapes (EvJoin socket nick) s = on_join shapes socket nick s.
Proof.
  intros Hopen. unfold step. rewrite bind_run. cbn [get].
  destruct (decide (is_Some (player s !! socket))) as [_|Hs]; [|done].
  by destruct (on_join shapes socket nick s) as [[[] ?] ?].
Qed.

Lemma step_disconnect_bound socket p s :
  player s !! socket = Some (Some p) ->
  step shapes (EvDisconnect socket) s =
  (tt,
   set_player (delete socket (player s))
     (set_socketIds (delete (id p) (socketIds s))
        (setC Dynamic (set_bodies (remove_first (id p) (bodies (dynamic s))) (dynamic s)) s)),
   map (fun cb => listener_msg cb (OBody p))
     (listeners BeforeRemove (dynamic s) ++ listeners AfterRemove (dynamic s))).
Proof.
  intros Hp. unfold step. rewrite bind_run. cbn [get].
  destruct (decide (is_Some (player s !! socket))) as [_|Hs].
  - rewrite bind_run, on_disconnect_run, Hp. cbn. by rewrite app_nil_r.
  - destruct Hs. by rewrite Hp.
Qed.

(** X12: in any state the server can be in, a connection that opens,
    joins and disconnects leaves the known, static and dynamic bodies,
    [socketIds] and the open connections exactly as they were; only the
    id counter has moved on.  Its messages are the acknowledgement, the
    snapshot, the [add] of its player and the [remove] of the same id. *)
Theorem join_then_disconnect_restores
  (evs : list Event) (socket : SocketId) (nick : string) :
  let s := state_of (serve shapes evs) in
  let p := new_player shapes nick s in
  let res := run shapes [EvConnection socket; EvJoin socket nick; EvDisconnect socket] s in
  player s !! socket = None ->
  state_of res = set_nextId (S (id p)) s /\
  output_of res =
    SendId socket (id p) :: snapshot socket s ++
    [IoEmit "add" (PInfo (bodyInfo p)); IoEmit "remove" (PId (id p))].
Proof.
  intros s p res Hclosed.
  pose proof (Inv_serve shapes evs) as HI. fold s in HI.
  assert (HL : Linked s).
  { unfold s. rewrite serve_run.
    apply Linked_run; [apply Inv_booted|apply Linked_booted]. }
  destruct (listeners_informing _ (inv_dynamic _ HI)) as (Hd1 & Hd2 & Hd3 & Hd4).
  pose proof (fresh_id_ge shapes "player" s) as Hge.
  assert (Hnew : id p ∉ ids (bodies (dynamic s))).
  { intros Hin. apply (inv_visible_fresh s _ HI Hge), visible_spec. by right. }
  assert (Hids : socketIds s !! id p = None).
  { apply eq_None_not_Some. by rewrite (linked_dom _ HL). }
  unfold res. fold p. clearbody s. clear res.
  unfold run. cbn [forEach].
  rewrite bind_run, (step_connection_closed _ _ Hclosed). cbv beta iota.
  rewrite bind_run, step_join_open by (cbn; by rewrite lookup_insert_eq).
  rewrite on_join_run. cbv beta iota.
  change (new_player shapes nick (set_player (<[socket:=None]> (player s)) s))
    with p.
  cbn [dynamic set_player]. rewrite Hd1, Hd2.
  rewrite bind_run, (step_disconnect_bound socket p).
  2:{ cbn. by rewrite lookup_insert_eq. }
  cbn [setC bootstrapped player dynamic socketIds static world nextId set_socketIds
    set_player set_nextId set_bodies bodies].
  change (listeners BeforeRemove (set_bodies _ (dynamic s)))
    with (listeners BeforeRemove (dynamic s)).
  change (listeners AfterRemove (set_bodies _ (dynamic s)))
    with (listeners AfterRemove (dynamic s)).
  rewrite Hd3, Hd4.
  cbn [mret M_ret app map listener_msg renderInfo concat_obj].
  unfold state_of, output_of. cbn [fst snd].
  change (new_player shapes nick (set_player (<[socket:=None]> (player s)) s))
    with p.
  change (fresh_id shapes "player" (set_player (<[socket:=None]> (player s)) s))
    with (id p).
  split.
  - rewrite remove_first_snoc by done.
    rewrite (delete_insert_id (socketIds s)) by done.
    rewrite insert_insert_eq, (delete_insert_id (player s)) by done.
    unfold set_nextId, set_player, set_socketIds, set_bodies. cbn.
    destruct s as [? ? ? [] ? ?]. reflexivity.
  - cbn. f_equal. rewrite <- app_assoc. reflexivity.
Qed.

End Traces.

(** ** The update broadcaster *)

(** X13: at a tick of the update timer the server broadcasts [update]
    also when it has nothing to report: the game state it sends is
    empty exactly when every dynamic body is sleeping, in particular
    when no player has joined. *)
Theorem update_is_empty_iff_all_asleep (s : Server) :
  output_of (emitRegularUpdates s) = [IoVolatileEmit "update" (PGamestate [])] <->
  Forall (fun b => isSleeping b = true) (bodies (dynamic s)).
Proof.
  unfold emitRegularUpdates. rewrite bind_run. cbn [get emit output_of snd app].
  induction (bodies (dynamic s)) as [|b l IH]; [by split|].
  cbn [flat_map]. destruct (isSleeping b) eqn:Hb; cbn [app].
  - rewrite IH. split; [by constructor|by intros [_ Hl]%Forall_cons].
  - split; [done|]. intros [Hb' _]%Forall_cons. congruence.
Qed.

(** ** [renderInfo] *)

(** C8: [renderInfo] is a function of its argument alone.  For one
    body it returns exactly one record, and for an array of bodies one
    record per body, in order: the record has the body's [id], [shape]
    and [position], and it has an [angle] (the body's) exactly when the
    body's shape is ["player"]. *)
Theorem renderInfo_records :
  let record (body : Body) (info : RenderInfo) :=
    ri_id info = id body /\
    ri_shape info = shape body /\
    ri_position info = position body /\
    (shape body = Some "player"%string <-> ri_angle info = Some (angle body)) /\
    (shape body ≠ Some "player"%string <-> ri_angle info = None) in
  (forall body, exists info, renderInfo (OBody body) = [info] /\ record body info) /\
  (forall l, length (renderInfo (OArray l)) = length l /\
             Forall2 record l (renderInfo (OArray l))).
Proof.
  intros record.
  assert (Hrecord : forall b, record b (bodyInfo b)).
  { intros b. unfold record, bodyInfo. cbn. repeat split; try done.
    - intros ->. cbn. by rewrite bool_decide_eq_true_2.
    - unfold is_player. destruct (shape b) as [sh|]; [|done].
      case_bool_decide; [by subst|done].
    - unfold is_player. destruct (shape b) as [sh|]; [|done].
      case_bool_decide; [by subst|done].
    - unfold is_player. destruct (shape b) as [sh|]; [|done].
      case_bool_decide; [done|]. intros _ [= ->]. done. }
  split.
  - intros body. exists (bodyInfo body). split; [reflexivity|apply Hrecord].
  - intros l. unfold renderInfo. cbn [concat_obj]. split; [apply length_map|].
    induction l as [|b l IH]; constructor; [apply Hrecord|exact IH].
Qed.

(** ** Rounding *)

Local Open Scope Z_scope.

Lemma digits2_size p : digits2_pos p = Pos.size p.
Proof. induction p; cbn; congruence. Qed.

Lemma digits2_bounds p :
  2 ^ (Zpos (digits2_pos p) - 1) <= Zpos p < 2 ^ Zpos (digits2_pos p).
Proof.
  induction p as [p IH|p IH|]; cbn [digits2_pos].
  - rewrite Pos2Z.inj_succ, (Pos2Z.inj_xI p).
    replace (Z.succ (Zpos (digits2_pos p)) - 1) with (Z.succ (Zpos (digits2_pos p) - 1)) by lia.
    rewrite !Z.pow_succ_r by lia. lia.
  - rewrite Pos2Z.inj_succ, (Pos2Z.inj_xO p).
    replace (Z.succ (Zpos (digits2_pos p)) - 1) with (Z.succ (Zpos (digits2_pos p) - 1)) by lia.
    rewrite !Z.pow_succ_r by lia. lia.
  - cbn. lia.
Qed.

Lemma iter_xO_mul p k : Zpos (Pos.iter xO p k) = Zpos p * 2 ^ Zpos k.
Proof.
  revert p. induction k as [|k IH] using Pos.peano_ind; intros p.
  - cbn. lia.
  - rewrite Pos.iter_succ, (Pos2Z.inj_xO (Pos.iter xO p k)), IH, Pos2Z.inj_succ, Z.pow_succ_r by lia. lia.
Qed.

Lemma digits2_unique p d :
  2 ^ (d - 1) <= Zpos p < 2 ^ d -> Zpos (digits2_pos p) = d.
Proof.
  intros [Hlo Hhi]. destruct (digits2_bounds p) as [Hlo' Hhi'].
  assert (0 < d).
  { destruct (Z.lt_ge_cases 0 d); [done|].
    rewrite (Z.pow_neg_r 2 (d - 1)) in Hlo by lia.
    destruct (Z.eq_dec d 0) as [->|]; [cbn in Hhi; lia|].
    rewrite Z.pow_neg_r in Hhi by lia. lia. }
  destruct (Z.lt_trichotomy (Zpos (digits2_pos p)) d) as [Hlt|[Heq|Hgt]]; [|done|].
  - assert (2 ^ Zpos (digits2_pos p) <= 2 ^ (d - 1)) by (apply Z.pow_le_mono_r; lia). lia.
  - assert (2 ^ d <= 2 ^ (Zpos (digits2_pos p) - 1)) by (apply Z.pow_le_mono_r; lia). lia.
Qed.

Lemma digits2_iter_xO p k :
  Zpos (digits2_pos (Pos.iter xO p k)) = Zpos (digits2_pos p) + Zpos k.
Proof.
  apply digits2_unique. rewrite iter_xO_mul.
  destruct (digits2_bounds p) as [Hlo Hhi].
  replace (Zpos (digits2_pos p) + Zpos k - 1) with ((Zpos (digits2_pos p) - 1) + Zpos k) by lia.
  rewrite !Z.pow_add_r by lia. nia.
Qed.

(** The number of an integer with at most 53 binary digits. *)
Lemma binary_round_small s p :
  Zpos (digits2_pos p) <= 53 ->
  binary_round prec emax s p 0 =
  S754_finite s (Z.to_pos (Zpos p * 2 ^ (53 - Zpos (digits2_pos p))))
              (Zpos (digits2_pos p) - 53).
Proof.
  intros Hd. unfold binary_round, shl_align.
  set (d := Zpos (digits2_pos p)) in *.
  assert (Hfexp : fexp prec emax (d + 0) = d - 53).
  { unfold fexp, emin, prec, emax. lia. }
  rewrite Hfexp.
  destruct (d - 53 - 0) as [|k|k] eqn:Hk; try lia.
  - assert (d = 53) by lia.
    unfold binary_round_aux, shr_fexp. cbn [Zdigits2]. fold d.
    replace (fexp prec emax (d + 0) - 0) with 0 by lia. cbn [shr shr_record_of_loc shr_m
      loc_of_shr_record round_nearest_even Zdigits2]. fold d.
    replace (fexp prec emax (d + 0) - 0) with 0 by lia. cbn [shr shr_m].
    replace (53 - d) with 0 by lia. rewrite Z.mul_1_r. cbn [Z.to_pos].
    replace (d - 53) with 0 by lia. reflexivity.
  - assert (Hdig : Zpos (digits2_pos (Pos.iter xO p k)) = 53).
    { rewrite digits2_iter_xO. fold d. lia. }
    unfold binary_round_aux, shr_fexp. cbn [Zdigits2]. rewrite Hdig.
    assert (Hf2 : fexp prec emax (53 + (d - 53)) - (d - 53) = 0).
    { unfold fexp, emin, prec, emax. pose proof (Pos2Z.is_pos (digits2_pos p)). lia. }
    rewrite Hf2. cbn [shr shr_record_of_loc shr_m loc_of_shr_record round_nearest_even
      Zdigits2]. rewrite Hdig, Hf2. cbn [shr shr_m].
    replace (d - 53 <=? emax - prec) with true by (unfold emax, prec; lia).
    f_equal. apply Pos2Z.inj. rewrite iter_xO_mul, Z2Pos.id.
    + f_equal. f_equal. lia.
    + apply Z.mul_pos_pos; [lia|]. apply Z.pow_pos_nonneg; lia.
Qed.

Lemma shr_exponent mrs e n : e <= snd (shr mrs e n).
Proof. destruct n; cbn; lia. Qed.

Lemma binary_round_aux_exponent s m e l s' m' e' :
  binary_round_aux prec emax s m e l = S754_finite s' m' e' -> e <= e'.
Proof.
  unfold binary_round_aux, shr_fexp.
  pose proof (shr_exponent (shr_record_of_loc m l) e
                (fexp prec emax (Zdigits2 m + e) - e)) as H1.
  destruct (shr (shr_record_of_loc m l) e _) as [mrs1 e1]. cbn [snd] in H1.
  pose proof (shr_exponent
                (shr_record_of_loc (round_nearest_even (shr_m mrs1) (loc_of_shr_record mrs1))
                   loc_Exact) e1
                (fexp prec emax
                   (Zdigits2 (round_nearest_even (shr_m mrs1) (loc_of_shr_record mrs1)) + e1)
                 - e1)) as H2.
  destruct (shr _ e1 _) as [mrs2 e2]. cbn [snd] in H2.
  destruct (shr_m mrs2); try discriminate.
  destruct (e2 <=? emax - prec); [|discriminate].
  intros [= _ _ <-]. lia.
Qed.

Lemma Math_round_integral x : integral x -> Math_round x = x.
Proof.
  destruct x as [| | |s m e]; try reflexivity. cbn. intros He.
  destruct (Z.leb_spec 0 e); [reflexivity|lia].
Qed.

Lemma shiftr_half k n : 0 < k -> Z.shiftr (n * 2 ^ k + 2 ^ (k - 1)) k = n.
Proof.
  intros Hk. rewrite Z.shiftr_div_pow2 by lia.
  assert (Hp : 2 ^ k = 2 * 2 ^ (k - 1)).
  { replace k with (Z.succ (k - 1)) at 1 by lia. apply Z.pow_succ_r. lia. }
  assert (0 < 2 ^ (k - 1)) by (apply Z.pow_pos_nonneg; lia).
  symmetry. apply (Z.div_unique _ _ _ (2 ^ (k - 1))); lia.
Qed.

Lemma Math_round_of_Z n : Math_round (of_Z n) = of_Z n.
Proof.
  unfold of_Z, binary_normalize.
  assert (Hgen : forall s p, signed s p = n ->
            Math_round (binary_round prec emax s p 0) = binary_round prec emax s p 0).
  { intros s p Hn.
    destruct (Z.le_gt_cases (Zpos (digits2_pos p)) 53) as [Hd|Hd].
    - rewrite binary_round_small by done.
      set (d := Zpos (digits2_pos p)) in *.
      destruct (Z.eq_dec d 53) as [->|Hne]; [reflexivity|].
      assert (Hpow : 0 < 2 ^ (53 - d)) by (apply Z.pow_pos_nonneg; lia).
      cbn [Math_round]. destruct (Z.leb_spec 0 (d - 53)); [lia|].
      assert (Hs : signed s (Z.to_pos (Zpos p * 2 ^ (53 - d))) = n * 2 ^ (53 - d)).
      { unfold signed in *. rewrite <- Hn. destruct s; cbn [cond_Zopp];
          rewrite Z2Pos.id by lia; lia. }
      rewrite Hs. replace (- (d - 53)) with (53 - d) by lia.
      rewrite shiftr_half by lia.
      destruct (Z.eqb_spec n 0) as [->|Hn0].
      { unfold signed in Hn. destruct s; cbn in Hn; lia. }
      unfold signed in Hn.
      destruct s; cbn [cond_Zopp Z.opp] in Hn; subst n;
        unfold of_Z, binary_normalize; change (- Z.pos p) with (Z.neg p); cbv iota;
        rewrite binary_round_small by done; reflexivity.
    - apply Math_round_integral.
      unfold binary_round, shl_align.
      assert (Hfexp : fexp prec emax (Zpos (digits2_pos p) + 0) = Zpos (digits2_pos p) - 53).
      { unfold fexp, emin, prec, emax. lia. }
      rewrite Hfexp.
      destruct (Zpos (digits2_pos p) - 53 - 0) as [|k|k] eqn:Hk; try lia.
      destruct (binary_round_aux prec emax s (Zpos p) 0 loc_Exact) as [| | |s' m' e'] eqn:Hr;
        cbn; try done.
      by apply binary_round_aux_exponent in Hr. }
  destruct n as [|p|p]; [reflexivity| |]; by apply Hgen.
Qed.

Lemma Math_round_twice x : Math_round (Math_round x) = Math_round x.
Proof.
  destruct x as [| | |s m e]; try reflexivity.
  cbn [Math_round]. destruct (Z.leb_spec 0 e) as [He|He].
  - cbn [Math_round]. destruct (Z.leb_spec 0 e); [reflexivity|lia].
  - cbv zeta. destruct (Z.eqb_spec (Z.shiftr (signed s m + 2 ^ (- e - 1)) (- e)) 0).
    + reflexivity.
    + apply Math_round_of_Z.
Qed.

(** *** Two-decimal rounding

    [round2] divides by 100 what [Math.round] made of the hundredfold
    angle.  Both [div] and [mul] round their exact result to 53 bits;
    the lemmas below follow [binary_round_aux] through its two shifts
    and bound the error of each, so that for an integer below 2^51 the
    quotient by 100, multiplied by 100 again, is less than one half away
    from the integer. *)

Lemma iter_pos_nat {A} (f : A -> A) p x :
  SpecFloat.iter_pos f p x = Nat.iter (Pos.to_nat p) f x.
Proof.
  revert x. induction p as [p IH|p IH|]; intros x; cbn [SpecFloat.iter_pos].
  - rewrite !IH, Pos2Nat.inj_xI.
    replace (S (2 * Pos.to_nat p))%nat with (Pos.to_nat p + (Pos.to_nat p + 1))%nat by lia.
    rewrite !Nat.iter_add. reflexivity.
  - rewrite !IH, Pos2Nat.inj_xO.
    replace (2 * Pos.to_nat p)%nat with (Pos.to_nat p + Pos.to_nat p)%nat by lia.
    rewrite Nat.iter_add. reflexivity.
  - reflexivity.
Qed.

Lemma shr_1_nonneg m r s :
  0 <= m ->
  shr_1 {| shr_m := m; shr_r := r; shr_s := s |} =
  {| shr_m := m / 2; shr_r := Z.odd m; shr_s := r || s |}.
Proof.
  intros Hm. destruct m as [|[p|p|]|]; try lia; cbn [shr_1].
  - reflexivity.
  - f_equal. rewrite (Pos2Z.inj_xI p). apply (Z.div_unique _ _ _ 1); lia.
  - f_equal. rewrite (Pos2Z.inj_xO p). apply (Z.div_unique _ _ _ 0); lia.
  - reflexivity.
Qed.

Lemma shr_iter (k : nat) m :
  0 <= m ->
  Nat.iter (S k) shr_1 {| shr_m := m; shr_r := false; shr_s := false |} =
  {| shr_m := m / 2 ^ Z.of_nat (S k);
     shr_r := Z.odd (m / 2 ^ Z.of_nat k);
     shr_s := negb (m mod 2 ^ Z.of_nat k =? 0) |}.
Proof.
  intros Hm. induction k as [|k IH].
  - cbn [Nat.iter]. rewrite shr_1_nonneg by done. cbn. rewrite Z.div_1_r, Z.mod_1_r.
    reflexivity.
  - rewrite Nat.iter_succ, IH.
    assert (Hp : 0 < 2 ^ Z.of_nat k) by (apply Z.pow_pos_nonneg; lia).
    assert (Hs : 2 ^ Z.of_nat (S k) = 2 ^ Z.of_nat k * 2).
    { rewrite Nat2Z.inj_succ, Z.pow_succ_r by lia. lia. }
    assert (Hss : 2 ^ Z.of_nat (S (S k)) = 2 ^ Z.of_nat (S k) * 2).
    { rewrite (Nat2Z.inj_succ (S k)), Z.pow_succ_r by lia. lia. }
    rewrite shr_1_nonneg by (apply Z.div_pos; lia).
    f_equal.
    + rewrite Hss, <- Z.div_div by lia. reflexivity.
    + rewrite Hs, Z.rem_mul_r by lia.
      pose proof (Z.mod_pos_bound m (2 ^ Z.of_nat k) Hp) as Hb.
      rewrite (Zmod_odd (m / 2 ^ Z.of_nat k)).
      destruct (Z.odd (m / 2 ^ Z.of_nat k)); cbn [orb].
      * symmetry. apply negb_true_iff, Z.eqb_neq. lia.
      * f_equal. rewrite Z.mul_0_r, Z.add_0_r. reflexivity.
Qed.

Lemma shr_exact m e k :
  0 <= m -> 0 < k ->
  shr {| shr_m := m; shr_r := false; shr_s := false |} e k =
  ({| shr_m := m / 2 ^ k;
      shr_r := Z.odd (m / 2 ^ (k - 1));
      shr_s := negb (m mod 2 ^ (k - 1) =? 0) |}, e + k).
Proof.
  intros Hm Hk. destruct k as [|p|p]; try lia. cbn [shr].
  rewrite iter_pos_nat.
  destruct (Pos2Nat.is_succ p) as [n Hn]. rewrite Hn, shr_iter by done.
  rewrite <- Hn, positive_nat_Z.
  replace (Z.of_nat n) with (Z.pos p - 1) by lia. reflexivity.
Qed.

Lemma rnd_near m k :
  0 <= m -> 0 < k ->
  m / 2 ^ k <= rnd m k <= m / 2 ^ k + 1 /\
  - 2 ^ k <= 2 * (rnd m k * 2 ^ k - m) <= 2 ^ k.
Proof.
  intros Hm Hk. unfold rnd.
  set (h := 2 ^ (k - 1)).
  assert (Hh : 0 < h) by (apply Z.pow_pos_nonneg; lia).
  assert (Hk2 : 2 ^ k = h * 2).
  { unfold h. replace k with (Z.succ (k - 1)) at 1 by lia.
    rewrite Z.pow_succ_r by lia. lia. }
  rewrite Hk2, <- Z.div_div by lia.
  pose proof (Z.div_mod m h ltac:(lia)) as Hdiv.
  pose proof (Z.mod_pos_bound m h Hh) as Hc.
  pose proof (Z.div_mod (m / h) 2 ltac:(lia)) as Hdiv2.
  pose proof (Zmod_odd (m / h)) as Hodd.
  set (b := m / h) in *. set (c := m mod h) in *. set (a := b / 2) in *.
  destruct (Z.odd b); destruct (Z.eqb_spec c 0) as [Hc0|Hc0];
    cbn [negb loc_of_shr_record round_nearest_even shr_m shr_r shr_s];
    try destruct (Z.even a); nia.
Qed.

Lemma Zdigits2_unique m d :
  2 ^ (d - 1) <= m < 2 ^ d -> 0 < m -> Zdigits2 m = d.
Proof.
  intros Hb Hm. destruct m as [|p|p]; try lia. cbn [Zdigits2].
  by apply digits2_unique.
Qed.

Lemma fexp_normal d : -1021 <= d -> fexp prec emax d = d - 53.
Proof. unfold fexp, emin, prec, emax. lia. Qed.

(** The last step of [binary_round_aux]: a mantissa of 53 bits stays,
    and 2^53 becomes 2^52 with the exponent one up. *)
Lemma shr_fexp_carry mR e :
  2 ^ 52 <= mR <= 2 ^ 53 -> -1074 <= e ->
  exists m' e',
    shr_fexp prec emax mR e loc_Exact =
      ({| shr_m := Zpos m'; shr_r := false; shr_s := false |}, e') /\
    2 ^ 52 <= Zpos m' < 2 ^ 53 /\
    e <= e' <= e + 1 /\
    Zpos m' * 2 ^ (e' - e) = mR.
Proof.
  intros HmR He. unfold shr_fexp.
  destruct (Z.eq_dec mR (2 ^ 53)) as [->|Hne].
  - exists 4503599627370496%positive, (e + 1).
    replace (Zdigits2 (2 ^ 53)) with 54 by reflexivity.
    rewrite fexp_normal by lia.
    replace (54 + e - 53 - e) with 1 by lia.
    cbn [shr_record_of_loc]. rewrite shr_exact by lia.
    replace (e + 1 - e) with 1 by lia.
    split; [reflexivity|]. split; [by vm_compute|]. split; [lia|reflexivity].
  - assert (Hd : Zdigits2 mR = 53).
    { apply Zdigits2_unique; [|lia]. change (53 - 1) with 52. lia. }
    rewrite Hd, fexp_normal by lia.
    replace (53 + e - 53 - e) with 0 by lia. cbn [shr shr_record_of_loc].
    destruct mR as [|p|p]; try lia.
    exists p, e. replace (e - e) with 0 by lia.
    split; [reflexivity|]. split; [lia|]. split; [lia|]. cbn. lia.
Qed.

(** Rounding an exact product or sum of more than 53 bits. *)
Lemma binary_round_aux_exact s m e :
  let k := Zpos (digits2_pos m) - 53 in
  0 < k -> -1074 <= e + k -> e + k + 1 <= 971 ->
  exists m' e',
    binary_round_aux prec emax s (Zpos m) e loc_Exact = S754_finite s m' e' /\
    2 ^ 52 <= Zpos m' < 2 ^ 53 /\
    e + k <= e' <= e + k + 1 /\
    - 2 ^ (e' - e) <= 2 * (Zpos m' * 2 ^ (e' - e) - Zpos m) <= 2 ^ (e' - e).
Proof.
  intros k Hk Hlo Hhi. unfold binary_round_aux, shr_fexp at 1.
  cbn [Zdigits2 shr_record_of_loc].
  rewrite fexp_normal by lia.
  replace (Zpos (digits2_pos m) + e - 53 - e) with k by lia.
  rewrite shr_exact by lia. cbv beta iota.
  change (round_nearest_even _ _) with (rnd (Zpos m) k).
  destruct (rnd_near (Zpos m) k ltac:(lia) Hk) as [Hr1 Hr2].
  destruct (digits2_bounds m) as [Hd1 Hd2].
  assert (Hpk : 0 < 2 ^ k) by (apply Z.pow_pos_nonneg; lia).
  assert (Hsplit : 2 ^ Zpos (digits2_pos m) = 2 ^ 53 * 2 ^ k).
  { rewrite <- Z.pow_add_r by lia. f_equal. lia. }
  assert (Hsplit' : 2 ^ (Zpos (digits2_pos m) - 1) = 2 ^ 52 * 2 ^ k).
  { rewrite <- Z.pow_add_r by lia. f_equal. lia. }
  assert (Hq : 2 ^ 52 <= Zpos m / 2 ^ k < 2 ^ 53).
  { split.
    - apply Z.div_le_lower_bound; lia.
    - apply Z.div_lt_upper_bound; lia. }
  destruct (shr_fexp_carry (rnd (Zpos m) k) (e + k) ltac:(lia) Hlo)
    as (m' & e' & Heq & Hm' & He' & Hval).
  rewrite Heq. cbn [shr_m].
  destruct (Z.leb_spec e' (emax - prec)) as [_|Hbad]; [|unfold emax, prec in Hbad; lia].
  exists m', e'. split; [reflexivity|]. split; [done|]. split; [done|].
  assert (Hpow : 2 ^ (e' - e) = 2 ^ (e' - (e + k)) * 2 ^ k).
  { rewrite <- Z.pow_add_r by lia. f_equal. lia. }
  assert (Hc : e' = e + k \/ e' = e + k + 1) by lia.
  destruct Hc as [->| ->].
  - replace (e + k - (e + k)) with 0 in * by lia. rewrite Hpow.
    change (2 ^ 0) with 1 in *. nia.
  - replace (e + k + 1 - (e + k)) with 1 in * by lia. rewrite Hpow.
    change (2 ^ 1) with 2 in *. nia.
Qed.

Lemma hundred_eq : hundred = S754_finite false 7036874417766400 (-46).
Proof. reflexivity. Qed.

Lemma loc_of_record_of_loc m l : loc_of_shr_record (shr_record_of_loc m l) = l.
Proof. by destruct l as [|[]]. Qed.

Lemma shr_m_record_of_loc m l : shr_m (shr_record_of_loc m l) = m.
Proof. by destruct l as [|[]]. Qed.

(** The quotient of a 53-bit number by [hundred], correctly rounded. *)
Lemma div_hundred s mx ex :
  Zpos (digits2_pos mx) = 53 ->
  -1067 <= ex -> ex <= 970 ->
  exists m' e',
    div (S754_finite s mx ex) hundred = S754_finite s m' e' /\
    2 ^ 52 <= Zpos m' < 2 ^ 53 /\
    ex - 7 <= e' <= ex - 5 /\
    - (2 ^ (e' - (ex - 7)) * M100)
      <= 2 * (Zpos m' * 2 ^ (e' - (ex - 7)) * M100 - Zpos mx * 2 ^ 53)
      <= 2 ^ (e' - (ex - 7)) * M100.
Proof.
  intros Hdx Hlo Hhi. rewrite hundred_eq. unfold div, SFdiv, SFdiv_core_binary.
  cbn [Zdigits2]. rewrite Hdx.
  change (Zpos (digits2_pos 7036874417766400)) with 53.
  replace (53 + ex - (53 + -46)) with (ex + 46) by lia.
  rewrite fexp_normal by lia.
  replace (Z.min (ex + 46 - 53) (ex - -46)) with (ex - 7) by lia.
  replace (ex - -46 - (ex - 7)) with 53 by lia. cbv iota.
  rewrite Z.shiftl_mul_pow2 by lia.
  pose proof (Z_div_mod (Zpos mx * 2 ^ 53) 7036874417766400 ltac:(lia)) as Hqr.
  destruct (Z.div_eucl (Zpos mx * 2 ^ 53) 7036874417766400) as [q r].
  destruct Hqr as [Hq Hr].
  destruct (digits2_bounds mx) as [Hx1 Hx2]. rewrite Hdx in Hx1, Hx2.
  change (53 - 1) with 52 in Hx1.
  change (2 ^ 52) with 4503599627370496 in *.
  change (2 ^ 53) with 9007199254740992 in *.
  assert (Hqb : 4503599627370496 <= q < 18014398509481984) by lia.
  replace (xorb s false) with s by (by destruct s).
  unfold new_location. change (Z.even 7036874417766400) with true. cbv iota.
  unfold new_location_even.
  unfold binary_round_aux, shr_fexp at 1.
  destruct (Z.lt_ge_cases q 9007199254740992) as [Hq53|Hq54].
  - (* the quotient has 53 bits *)
    assert (Hd : Zdigits2 q = 53).
    { apply Zdigits2_unique; [|lia].
      change (2 ^ (53 - 1)) with 4503599627370496.
      change (2 ^ 53) with 9007199254740992. lia. }
    rewrite Hd, fexp_normal by lia.
    replace (53 + (ex - 7) - 53 - (ex - 7)) with 0 by lia. cbn [shr]. cbv beta iota.
    rewrite loc_of_record_of_loc, shr_m_record_of_loc.
    set (loc := if r =? 0 then loc_Exact else loc_Inexact (2 * r ?= 7036874417766400)).
    assert (HmR : q <= round_nearest_even q loc <= q + 1 /\
                  - 7036874417766400
                  <= 2 * (round_nearest_even q loc * 7036874417766400
                          - Zpos mx * 9007199254740992)
                  <= 7036874417766400).
    { unfold loc. destruct (Z.eqb_spec r 0) as [->|Hr0]; cbn [round_nearest_even]; [lia|].
      destruct (Z.compare_spec (2 * r) 7036874417766400); cbn [round_nearest_even];
        try destruct (Z.even q); lia. }
    destruct HmR as [HmR1 HmR2].
    destruct (shr_fexp_carry (round_nearest_even q loc) (ex - 7)) as
      (m' & e' & Heq & Hm' & He' & Hval).
    { change (2 ^ 52) with 4503599627370496. change (2 ^ 53) with 9007199254740992. lia. }
    { lia. }
    rewrite Heq. cbn [shr_m].
    destruct (Z.leb_spec e' (emax - prec)) as [_|Hbad]; [|unfold emax, prec in Hbad; lia].
    exists m', e'. split; [reflexivity|]. split; [done|]. split; [lia|].
    unfold M100. rewrite Hval.
    assert (Hc : e' = ex - 7 \/ e' = ex - 7 + 1) by lia.
    destruct Hc as [->| ->].
    + replace (ex - 7 - (ex - 7)) with 0 by lia. change (2 ^ 0) with 1. lia.
    + replace (ex - 7 + 1 - (ex - 7)) with 1 by lia. change (2 ^ 1) with 2. lia.
  - (* the quotient has 54 bits *)
    assert (Hd : Zdigits2 q = 54).
    { apply Zdigits2_unique; [|lia].
      change (2 ^ (54 - 1)) with 9007199254740992.
      change (2 ^ 54) with 18014398509481984. lia. }
    rewrite Hd, fexp_normal by lia.
    replace (54 + (ex - 7) - 53 - (ex - 7)) with 1 by lia. cbn [shr SpecFloat.iter_pos].
    set (loc := if r =? 0 then loc_Exact else loc_Inexact (2 * r ?= 7036874417766400)).
    assert (Hrec : shr_1 (shr_record_of_loc q loc) =
                   {| shr_m := q / 2; shr_r := Z.odd q; shr_s := negb (r =? 0) |}).
    { unfold loc. destruct (Z.eqb_spec r 0) as [->|Hr0]; cbn [shr_record_of_loc].
      - rewrite shr_1_nonneg by lia. reflexivity.
      - destruct (2 * r ?= 7036874417766400); cbn [shr_record_of_loc];
          rewrite shr_1_nonneg by lia; reflexivity. }
    rewrite Hrec. cbv beta iota. cbn [shr_m].
    set (mR := round_nearest_even (q / 2) _).
    pose proof (Z.div_mod q 2 ltac:(lia)) as Hq2.
    pose proof (Zmod_odd q) as Hodd.
    assert (HmR : q / 2 <= mR <= q / 2 + 1 /\
                  - (2 * 7036874417766400)
                  <= 2 * (mR * 2 * 7036874417766400 - Zpos mx * 9007199254740992)
                  <= 2 * 7036874417766400).
    { unfold mR. destruct (Z.odd q); destruct (Z.eqb_spec r 0) as [->|Hr0];
        cbn [negb loc_of_shr_record round_nearest_even];
        try destruct (Z.even (q / 2)); lia. }
    destruct HmR as [HmR1 HmR2].
    destruct (shr_fexp_carry mR (ex - 7 + 1)) as (m' & e' & Heq & Hm' & He' & Hval).
    { change (2 ^ 52) with 4503599627370496. change (2 ^ 53) with 9007199254740992. lia. }
    { lia. }
    rewrite Heq. cbn [shr_m].
    destruct (Z.leb_spec e' (emax - prec)) as [_|Hbad]; [|unfold emax, prec in Hbad; lia].
    exists m', e'. split; [reflexivity|]. split; [done|]. split; [lia|].
    unfold M100.
    assert (Hc : e' = ex - 7 + 1 \/ e' = ex - 7 + 1 + 1) by lia.
    destruct Hc as [->| ->].
    + replace (ex - 7 + 1 - (ex - 7 + 1)) with 0 in Hval by lia.
      replace (ex - 7 + 1 - (ex - 7)) with 1 by lia.
      change (2 ^ 0) with 1 in Hval. change (2 ^ 1) with 2. lia.
    + replace (ex - 7 + 1 + 1 - (ex - 7 + 1)) with 1 in Hval by lia.
      replace (ex - 7 + 1 + 1 - (ex - 7)) with 2 by lia.
      change (2 ^ 1) with 2 in Hval. change (2 ^ 2) with 4. lia.
Qed.

(** The product of a 53-bit number and [hundred], correctly rounded. *)
Lemma mul_hundred s mq eq :
  2 ^ 52 <= Zpos mq < 2 ^ 53 ->
  -1080 <= eq -> eq <= 900 ->
  exists m' e',
    mul (S754_finite s mq eq) hundred = S754_finite s m' e' /\
    2 ^ 52 <= Zpos m' < 2 ^ 53 /\
    eq + 6 <= e' <= eq + 8 /\
    - 2 ^ (e' - (eq - 46))
      <= 2 * (Zpos m' * 2 ^ (e' - (eq - 46)) - Zpos mq * M100)
      <= 2 ^ (e' - (eq - 46)).
Proof.
  intros Hmq Hlo Hhi. rewrite hundred_eq. unfold mul, SFmul.
  replace (xorb s false) with s by (by destruct s).
  set (m := (mq * 7036874417766400)%positive).
  assert (Hm : Zpos m = Zpos mq * M100) by (unfold m, M100; lia).
  destruct (digits2_bounds m) as [Hd1 Hd2].
  assert (Hd : Zpos (digits2_pos m) = 105 \/ Zpos (digits2_pos m) = 106).
  { change (2 ^ 52) with 4503599627370496 in Hmq.
    change (2 ^ 53) with 9007199254740992 in Hmq. unfold M100 in Hm.
    destruct (Z.le_gt_cases (Zpos (digits2_pos m)) 104) as [Hle|Hgt].
    - assert (2 ^ Zpos (digits2_pos m) <= 2 ^ 104) by (apply Z.pow_le_mono_r; lia).
      change (2 ^ 104) with 20282409603651670423947251286016 in *. lia.
    - destruct (Z.le_gt_cases 107 (Zpos (digits2_pos m))) as [Hge|Hlt]; [|lia].
      assert (2 ^ 106 <= 2 ^ (Zpos (digits2_pos m) - 1)) by (apply Z.pow_le_mono_r; lia).
      change (2 ^ 106) with 81129638414606681695789005144064 in *. lia. }
  destruct (binary_round_aux_exact s m (eq + -46)) as (m' & e' & Heq & Hm' & He' & Herr).
  { lia. } { lia. } { lia. }
  exists m', e'. split; [exact Heq|]. split; [done|]. split; [lia|].
  replace (e' - (eq - 46)) with (e' - (eq + -46)) by lia. rewrite <- Hm. exact Herr.
Qed.

Lemma Math_round_near s mp ep n :
  ep < 0 -> n <> 0 ->
  n * (2 * 2 ^ (- ep - 1)) <= signed s mp + 2 ^ (- ep - 1)
    < n * (2 * 2 ^ (- ep - 1)) + 2 * 2 ^ (- ep - 1) ->
  Math_round (S754_finite s mp ep) = of_Z n.
Proof.
  intros Hep Hn Hb. cbn [Math_round].
  destruct (Z.leb_spec 0 ep); [lia|].
  assert (Hp : 0 < 2 ^ (- ep - 1)) by (apply Z.pow_pos_nonneg; lia).
  assert (Hk : 2 ^ (- ep) = 2 * 2 ^ (- ep - 1)).
  { replace (- ep) with (Z.succ (- ep - 1)) at 1 by lia. apply Z.pow_succ_r. lia. }
  assert (Hs : Z.shiftr (signed s mp + 2 ^ (- ep - 1)) (- ep) = n).
  { rewrite Z.shiftr_div_pow2, Hk by lia. symmetry.
    apply (Z.div_unique _ _ _ (signed s mp + 2 ^ (- ep - 1) - n * (2 * 2 ^ (- ep - 1)))); lia. }
  rewrite Hs. destruct (Z.eqb_spec n 0); [done|reflexivity].
Qed.

(** Dividing an integer below 2^51 by 100, multiplying the quotient by
    100 and rounding gives the integer back. *)
Lemma round_trip_hundred s p :
  Zpos p < 2 ^ 51 ->
  Math_round (mul (div (binary_round prec emax s p 0) hundred) hundred) =
  binary_round prec emax s p 0.
Proof.
  intros Hp.
  destruct (digits2_bounds p) as [Hd1 Hd2].
  set (d := Zpos (digits2_pos p)) in *.
  assert (Hd : 1 <= d <= 51).
  { split; [unfold d; lia|].
    destruct (Z.le_gt_cases d 51) as [|Hgt]; [done|].
    assert (2 ^ 51 <= 2 ^ (d - 1)) by (apply Z.pow_le_mono_r; lia). lia. }
  transitivity (of_Z (signed s p)); [|by destruct s].
  rewrite binary_round_small by (fold d; lia). fold d.
  set (T := 2 ^ (53 - d)).
  assert (HT : 4 <= T).
  { change 4 with (2 ^ 2). apply Z.pow_le_mono_r; lia. }
  assert (HT1 : 2 ^ (d - 1) * T = 2 ^ 52).
  { unfold T. rewrite <- Z.pow_add_r by lia. f_equal. lia. }
  assert (HT2 : 2 ^ d * T = 2 ^ 53).
  { unfold T. rewrite <- Z.pow_add_r by lia. f_equal. lia. }
  set (mx := Z.to_pos (Zpos p * T)).
  assert (Hmx : Zpos mx = Zpos p * T) by (unfold mx; rewrite Z2Pos.id; lia).
  assert (Hmxb : 2 ^ 52 <= Zpos mx < 2 ^ 53) by (rewrite Hmx; nia).
  assert (Hdx : Zpos (digits2_pos mx) = 53).
  { apply digits2_unique. change (53 - 1) with 52. done. }
  destruct (div_hundred s mx (d - 53) Hdx ltac:(lia) ltac:(lia))
    as (mq & eq & -> & Hmq & Heq & H1).
  destruct (mul_hundred s mq eq Hmq ltac:(lia) ltac:(lia))
    as (mp & ep & -> & Hmp & Hep & H2).
  unfold M100 in *.
  change (2 ^ 52) with 4503599627370496 in *.
  change (2 ^ 53) with 9007199254740992 in *.
  assert (Hj : eq = d - 60 \/ eq = d - 60 + 1 \/ eq = d - 60 + 2) by lia.
  assert (Hi : ep = eq - 46 + 52 \/ ep = eq - 46 + 53 \/ ep = eq - 46 + 54) by lia.
  clear Heq Hep.
  destruct Hj as [->|[->| ->]];
    [replace (d - 60 - (d - 53 - 7)) with 0 in H1 by lia; change (2 ^ 0) with 1 in H1
    |replace (d - 60 + 1 - (d - 53 - 7)) with 1 in H1 by lia; change (2 ^ 1) with 2 in H1
    |replace (d - 60 + 2 - (d - 53 - 7)) with 2 in H1 by lia; change (2 ^ 2) with 4 in H1;
     lia];
  (destruct Hi as [->|[->| ->]];
    [match type of H2 with context [2 ^ ?e] =>
       replace e with 52 in H2 by lia;
       change (2 ^ 52) with 4503599627370496 in H2 end
    |match type of H2 with context [2 ^ ?e] =>
       replace e with 53 in H2 by lia;
       change (2 ^ 53) with 9007199254740992 in H2 end
    |match type of H2 with context [2 ^ ?e] =>
       replace e with 54 in H2 by lia;
       change (2 ^ 54) with 18014398509481984 in H2 end]).
  all: try lia.
  all: apply Math_round_near; [lia|by destruct s|].
  all: match goal with |- context [2 ^ ?e] => set (W := 2 ^ e) end.
  all: assert (HTW : T = 2 * W)
    by (unfold T, W; rewrite <- Z.pow_succ_r by lia; f_equal; lia).
  all: clearbody W T; clear d Hd Hd1 Hd2 HT1 HT2 Hdx Hp.
  all: destruct s; unfold signed; cbn [cond_Zopp]; nia.
Qed.

Lemma round2_twice_small a :
  small_integer (Math_round (mul a hundred)) -> round2 (round2 a) = round2 a.
Proof.
  unfold round2. destruct (Math_round (mul a hundred)) as [s|s| |s m e] eqn:Hr.
  - intros _. by destruct s.
  - intros _. by destruct s.
  - intros _. reflexivity.
  - cbn [small_integer]. intros (n & Hn & ->). f_equal.
    destruct n as [|p|p].
    + reflexivity.
    + apply (round_trip_hundred false p). lia.
    + apply (round_trip_hundred true p). lia.
Qed.

(** C9, as the code has it on binary64 numbers: [Math.round] of a
    [Math.round] is the same number, for every number; and the
    two-decimal rounding of an angle, applied twice, gives what it gives
    once whenever [Math.round(angle * 100)] is not finite or is an
    integer of magnitude below 2^51. *)
Theorem rounding_twice (x a : number) :
  Math_round (Math_round x) = Math_round x /\
  (small_integer (Math_round (mul a hundred)) -> round2 (round2 a) = round2 a).
Proof. split; [apply Math_round_twice|apply round2_twice_small]. Qed.

(** C9, as the claim has it, fails on binary64 numbers: rounding
    [far_angle] to two decimals gives 44217068306705.59, and rounding
    that again gives 44217068306705.6. *)
Lemma round2_twice_differs :
  valid_binary prec emax far_angle = true /\
  round2 far_angle = S754_finite false 5659784743258316 (-7) /\
  round2 (round2 far_angle) = S754_finite false 5659784743258317 (-7).
Proof. vm_compute. repeat split. Qed.

Lemma rounding_twice_witness :
  small_integer (Math_round (mul pi_angle hundred)) /\
  Math_round (Math_round pi_angle) = Math_round pi_angle /\
  round2 (round2 pi_angle) = round2 pi_angle /\
  round2 pi_angle = div (of_Z 314) hundred.
Proof.
  assert (Hs : small_integer (Math_round (mul pi_angle hundred))).
  { exists 314. split; [reflexivity|]. vm_compute. reflexivity. }
  split; [exact Hs|]. split; [|split].
  - exact (proj1 (rounding_twice pi_angle pi_angle)).
  - exact (proj2 (rounding_twice pi_angle pi_angle) Hs).
  - vm_compute. reflexivity.
Defined.

(** *** The attributes of a spawned bag *)

Lemma rnd_le_grid m k t : 0 <= m -> 0 < k -> m <= t * 2 ^ k -> rnd m k <= t.
Proof.
  intros Hm Hk Hle. destruct (rnd_near m k Hm Hk) as [[_ Hr1] Hr2].
  assert (Hp : 0 < 2 ^ k) by (apply Z.pow_pos_nonneg; lia).
  assert (Hq : m / 2 ^ k <= t) by (apply Z.div_le_upper_bound; lia).
  destruct (Z.eq_dec (m / 2 ^ k) t) as [Heq|Hne]; [|lia].
  pose proof (Z.mul_div_le m (2 ^ k) Hp) as Hd. rewrite Heq in Hd. nia.
Qed.

Lemma rnd_nonneg m k : 0 <= m -> 0 < k -> 0 <= rnd m k.
Proof.
  intros Hm Hk. destruct (rnd_near m k Hm Hk) as [[Hr _] _].
  assert (Hp : 0 < 2 ^ k) by (apply Z.pow_pos_nonneg; lia).
  pose proof (Z.div_pos m (2 ^ k) Hm Hp). lia.
Qed.

Lemma pow2_split a b : 0 <= a -> 0 <= b -> 2 ^ (a + b) = 2 ^ a * 2 ^ b.
Proof. intros. by apply Z.pow_add_r. Qed.

Lemma digits2_le p d : Zpos p < 2 ^ d -> Zpos (digits2_pos p) <= d.
Proof.
  intros Hlt. destruct (digits2_bounds p) as [Hlo _].
  destruct (Z.le_gt_cases (Zpos (digits2_pos p)) d) as [|Hgt]; [done|].
  assert (2 ^ d <= 2 ^ (Zpos (digits2_pos p) - 1)) by (apply Z.pow_le_mono_r; lia). lia.
Qed.

Lemma digits2_ge p d : 2 ^ d <= Zpos p -> d < Zpos (digits2_pos p).
Proof.
  intros Hle. destruct (digits2_bounds p) as [_ Hhi].
  destruct (Z.lt_ge_cases d (Zpos (digits2_pos p))) as [|Hge]; [done|].
  assert (2 ^ Zpos (digits2_pos p) <= 2 ^ d) by (apply Z.pow_le_mono_r; lia). lia.
Qed.

Lemma unit_interval_finite m e :
  bounded prec emax m e = true -> Zpos m < 2 ^ (- e) ->
  -1074 <= e <= -53 /\ (-1074 < e -> 2 ^ 52 <= Zpos m).
Proof.
  intros [Hc _]%andb_prop Hlt. unfold canonical_mantissa in Hc.
  apply Z.eqb_eq in Hc. unfold fexp, emin, prec, emax in Hc.
  destruct (digits2_bounds m) as [Hd1 Hd2].
  assert (Hpos : 0 <= - e).
  { destruct (Z.le_gt_cases 0 (- e)) as [|Hneg]; [done|].
    rewrite (Z.pow_neg_r 2 (- e)) in Hlt by lia. lia. }
  pose proof (digits2_le m (- e) Hlt) as Hde.
  set (d := Zpos (digits2_pos m)) in *.
  assert (Hd : 1 <= d) by (unfold d; lia).
  split; [lia|]. intros He.
  assert (d = 53) as Hd53 by lia. rewrite Hd53 in Hd1. exact Hd1.
Qed.

(** The second shift of [binary_round_aux], also for a mantissa of
    less than 53 bits at the lowest exponent. *)
Lemma shr_fexp_settled m1 fe :
  0 <= m1 <= 2 ^ 53 -> -1074 <= fe -> (m1 < 2 ^ 52 -> fe = -1074) ->
  exists m2 e2,
    shr_fexp prec emax m1 fe loc_Exact =
      ({| shr_m := m2; shr_r := false; shr_s := false |}, e2) /\
    0 <= m2 /\ fe <= e2 <= fe + 1 /\ m2 * 2 ^ (e2 - fe) = m1.
Proof.
  intros Hm1 Hfe Hsub.
  destruct (Z.lt_ge_cases m1 (2 ^ 52)) as [Hsmall|Hbig].
  - exists m1, fe. replace (fe - fe) with 0 by lia.
    split; [|split; [lia|split; [lia|cbn; lia]]].
    unfold shr_fexp. rewrite (Hsub Hsmall).
    assert (Hshift : fexp prec emax (Zdigits2 m1 + -1074) - -1074 = 0).
    { destruct m1 as [|p|p]; [reflexivity| |lia]. cbn [Zdigits2].
      pose proof (digits2_le p 52 Hsmall).
      pose proof (Pos2Z.is_pos (digits2_pos p)).
      unfold fexp, emin, prec, emax. lia. }
    rewrite Hshift. reflexivity.
  - destruct (shr_fexp_carry m1 fe ltac:(lia) Hfe) as (m' & e' & Heq & Hm' & He' & Hv).
    exists (Zpos m'), e'. split; [done|]. split; [lia|]. split; [done|exact Hv].
Qed.

(** Rounding to 53 bits does not leave an interval whose end is an
    integer: a positive [p * 2^E] that is at most [T] is rounded to a
    number that is at most [T]. *)
Lemma binary_round_aux_within s p E T :
  E <= fexp prec emax (Zpos (digits2_pos p) + E) ->
  fexp prec emax (Zpos (digits2_pos p) + E) <= -2 ->
  Zpos p <= T * 2 ^ (- E) ->
  within s T (binary_round_aux prec emax s (Zpos p) E loc_Exact).
Proof.
  destruct (digits2_bounds p) as [Hd1 Hd2].
  set (d := Zpos (digits2_pos p)) in *.
  set (fe := fexp prec emax (d + E)).
  assert (Hfe : fe = Z.max (d + E - 53) (-1074)) by reflexivity.
  intros HE Hneg HT.
  set (k := fe - E).
  unfold binary_round_aux, shr_fexp at 1.
  cbn [Zdigits2 shr_record_of_loc]. fold d. fold fe. fold k.
  destruct (Z.eq_dec k 0) as [Hk0|Hk0].
  - rewrite Hk0. cbn [shr shr_m loc_of_shr_record round_nearest_even].
    unfold shr_fexp. cbn [Zdigits2 shr_record_of_loc]. fold d. fold fe. fold k.
    rewrite Hk0. cbn [shr shr_m].
    destruct (Z.leb_spec E (emax - prec)) as [_|Hbad]; [|unfold emax, prec in Hbad; lia].
    cbn [within]. split; [done|]. split; [lia|done].
  - assert (Hk : 0 < k) by (unfold k in *; lia).
    assert (Hpk : 0 < 2 ^ k) by (apply Z.pow_pos_nonneg; lia).
    assert (Hpfe : 0 < 2 ^ (- fe)) by (apply Z.pow_pos_nonneg; lia).
    assert (HpEk : 2 ^ (- E) = 2 ^ (- fe) * 2 ^ k).
    { rewrite <- Z.pow_add_r by lia. f_equal. unfold k. lia. }
    rewrite shr_exact by lia. cbv beta iota.
    change (round_nearest_even _ _) with (rnd (Zpos p) k).
    pose proof (rnd_nonneg (Zpos p) k ltac:(lia) Hk) as Hr0.
    assert (Hrt : rnd (Zpos p) k <= T * 2 ^ (- fe)).
    { apply rnd_le_grid; [lia|done|]. rewrite <- Z.mul_assoc, <- HpEk. done. }
    destruct (rnd_near (Zpos p) k ltac:(lia) Hk) as [[Hr1 Hr2] _].
    assert (Hr53 : rnd (Zpos p) k <= 2 ^ 53).
    { assert (Zpos p / 2 ^ k < 2 ^ 53); [|lia].
      apply Z.div_lt_upper_bound; [done|].
      assert (2 ^ d <= 2 ^ k * 2 ^ 53); [|lia].
      rewrite <- Z.pow_add_r by lia. apply Z.pow_le_mono_r; lia. }
    assert (Hsub : rnd (Zpos p) k < 2 ^ 52 -> fe = -1074).
    { intros Hsmall. destruct (Z.eq_dec fe (-1074)) as [|Hne]; [done|].
      assert (Hkd : k = d - 53) by (unfold k; lia).
      assert (2 ^ 52 <= Zpos p / 2 ^ k); [|lia].
      apply Z.div_le_lower_bound; [done|].
      assert (2 ^ k * 2 ^ 52 = 2 ^ (d - 1)); [|lia].
      rewrite <- Z.pow_add_r by lia. f_equal. lia. }
    replace (E + k) with fe by (unfold k; lia).
    destruct (shr_fexp_settled (rnd (Zpos p) k) fe ltac:(lia) ltac:(lia) Hsub)
      as (m2 & e2 & -> & Hm2 & He2 & Hv).
    cbn [shr_m].
    assert (Hpd : 0 < 2 ^ (e2 - fe)) by (apply Z.pow_pos_nonneg; lia).
    assert (Hpfe2 : 2 ^ (- fe) = 2 ^ (- e2) * 2 ^ (e2 - fe)).
    { rewrite <- Z.pow_add_r by lia. f_equal. lia. }
    destruct m2 as [|q|q]; [done| |lia].
    destruct (Z.leb_spec e2 (emax - prec)) as [_|Hbad]; [|unfold emax, prec in Hbad; lia].
    cbn [within]. split; [done|]. split; [lia|].
    apply (Z.mul_le_mono_pos_r _ _ (2 ^ (e2 - fe)) Hpd).
    rewrite Hv, <- Z.mul_assoc, <- Hpfe2. exact Hrt.
Qed.

(** The same for [binary_round], which first shifts a short mantissa
    to the left. *)
Lemma binary_round_within s p E T :
  E <= 0 -> T < 2 ^ 51 -> Zpos p <= T * 2 ^ (- E) ->
  within s T (binary_round prec emax s p E).
Proof.
  intros HE HT Hp.
  destruct (digits2_bounds p) as [Hd1 Hd2].
  assert (HpE : 0 < 2 ^ (- E)) by (apply Z.pow_pos_nonneg; lia).
  assert (Hd : Zpos (digits2_pos p) <= 51 + - E).
  { apply digits2_le. rewrite pow2_split by lia. nia. }
  set (d := Zpos (digits2_pos p)) in *.
  set (fe := fexp prec emax (d + E)).
  assert (Hfe : fe = Z.max (d + E - 53) (-1074)) by reflexivity.
  unfold binary_round, shl_align. fold d. fold fe.
  destruct (fe - E) as [|k|k] eqn:Hk.
  - apply binary_round_aux_within; fold d; fold fe; [lia|lia|done].
  - apply binary_round_aux_within; fold d; fold fe; [lia|lia|done].
  - assert (Hdig : Zpos (digits2_pos (Pos.iter xO p k)) + fe = d + E).
    { rewrite digits2_iter_xO. fold d. lia. }
    apply binary_round_aux_within; fold d; fold fe; rewrite ?Hdig; fold fe; [lia|lia|].
    rewrite iter_xO_mul.
    assert (Hs : 2 ^ (- fe) = 2 ^ (- E) * 2 ^ Zpos k).
    { rewrite <- Z.pow_add_r by lia. f_equal. lia. }
    rewrite Hs, Z.mul_assoc.
    apply Z.mul_le_mono_nonneg_r; [|done]. apply Z.pow_nonneg. lia.
Qed.

(** A number of the unit interval times a constant [K = mc * 2^ec]. *)
Lemma round_product_within s m e mc ec K :
  bounded prec emax m e = true -> Zpos m < 2 ^ (- e) ->
  2 ^ 52 <= Zpos mc < 2 ^ 53 -> -52 <= ec <= -2 -> Zpos mc = K * 2 ^ (- ec) ->
  within s K (binary_round_aux prec emax s (Zpos (m * mc)) (e + ec) loc_Exact).
Proof.
  intros Hb Hlt Hmc Hec HK.
  destruct (unit_interval_finite m e Hb Hlt) as [He Hnorm].
  assert (HM : Zpos (m * mc) = Zpos m * Zpos mc) by apply Pos2Z.inj_mul.
  assert (Hpe : 0 < 2 ^ (- e)) by (apply Z.pow_pos_nonneg; lia).
  assert (Hpc : 0 < 2 ^ (- ec)) by (apply Z.pow_pos_nonneg; lia).
  assert (HpE : 2 ^ (- (e + ec)) = 2 ^ (- e) * 2 ^ (- ec)).
  { rewrite <- Z.pow_add_r by lia. f_equal. lia. }
  assert (HK0 : 0 < K) by nia.
  assert (HMK : Zpos (m * mc) <= K * 2 ^ (- (e + ec))).
  { rewrite HpE, HM.
    replace (K * (2 ^ (- e) * 2 ^ (- ec))) with (2 ^ (- e) * Zpos mc) by (rewrite HK; ring).
    apply Z.mul_le_mono_nonneg_r; lia. }
  assert (Hd53 : 53 <= Zpos (digits2_pos (m * mc))).
  { assert (52 < Zpos (digits2_pos (m * mc))); [|lia].
    apply digits2_ge. rewrite HM. nia. }
  assert (HdE : Zpos (digits2_pos (m * mc)) <= 53 + - e).
  { apply digits2_le. rewrite HM, pow2_split, (Z.mul_comm (2 ^ 53)) by lia.
    apply Z.mul_lt_mono_nonneg; lia. }
  set (d := Zpos (digits2_pos (m * mc))) in *.
  assert (Hfe : fexp prec emax (d + (e + ec)) = Z.max (d + (e + ec) - 53) (-1074))
    by reflexivity.
  apply binary_round_aux_within; fold d; rewrite ?Hfe; [|lia|done].
  destruct (Z.le_gt_cases (-1074) (e + ec)) as [HE|HE]; [|lia].
  specialize (Hnorm ltac:(lia)).
  assert (104 < d); [|lia].
  apply digits2_ge. rewrite HM. change (2 ^ 104) with (2 ^ 52 * 2 ^ 52).
  apply Z.mul_le_mono_nonneg; lia.
Qed.

Lemma mul_unit_within (c r : number) sc mc ec K :
  c = S754_finite sc mc ec ->
  2 ^ 52 <= Zpos mc < 2 ^ 53 -> -52 <= ec <= -2 -> Zpos mc = K * 2 ^ (- ec) ->
  unit_interval r ->
  within sc K (mul r c) /\ within sc K (mul c r).
Proof.
  intros -> Hmc Hec HK Hr.
  destruct r as [s| | |s m e]; try done; cbn [unit_interval] in Hr.
  - subst s. unfold mul. cbn. by destruct sc.
  - destruct Hr as (-> & Hb & Hlt). unfold mul. cbn [SFmul xorb].
    rewrite xorb_false_r, (Pos.mul_comm mc m), (Z.add_comm ec e).
    split; by apply round_product_within.
Qed.

(** [Math.round] of a number of magnitude at most [T]. *)
Lemma Math_round_within s T x :
  within s T x -> 0 <= T ->
  exists n, (if s then - T <= n <= 0 else 0 <= n <= T) /\
            Math_round x = if n =? 0 then S754_zero s else of_Z n.
Proof.
  intros Hx HT. destruct x as [s'| | |s' m e]; try done; cbn [within] in Hx.
  - subst s'. exists 0. split; [destruct s; lia|reflexivity].
  - destruct Hx as (-> & He & Hm). cbn [Math_round].
    destruct (Z.leb_spec 0 e) as [|_]; [lia|]. cbv zeta.
    assert (Hh : 0 < 2 ^ (- e - 1)) by (apply Z.pow_pos_nonneg; lia).
    assert (Hk2 : 2 ^ (- e) = 2 * 2 ^ (- e - 1)).
    { replace (- e) with (Z.succ (- e - 1)) at 1 by lia. apply Z.pow_succ_r. lia. }
    rewrite Z.shiftr_div_pow2 by lia.
    set (h := 2 ^ (- e - 1)) in *. rewrite Hk2 in *.
    exists ((signed s m + h) / (2 * h)). split; [|reflexivity].
    unfold signed. destruct s; cbn [cond_Zopp].
    + split.
      * apply Z.div_le_lower_bound; [lia|]. lia.
      * assert ((- Zpos m + h) / (2 * h) < 1); [|lia].
        apply Z.div_lt_upper_bound; lia.
    + split.
      * apply Z.div_pos; lia.
      * assert ((Zpos m + h) / (2 * h) < T + 1); [|lia].
        apply Z.div_lt_upper_bound; lia.
Qed.

Lemma shl_align_value mx ex ez :
  ez <= ex -> Zpos (fst (shl_align mx ex ez)) = Zpos mx * 2 ^ (ex - ez).
Proof.
  intros Hle. unfold shl_align.
  destruct (ez - ex) as [|d|d] eqn:Hd; try lia; cbn [fst].
  - replace (ex - ez) with 0 by lia. cbn. lia.
  - rewrite iter_xO_mul. f_equal. f_equal. lia.
Qed.

(** A constant [Cv] plus a number of bounded magnitude, rounded by
    [Math.round], when the bounds of the sum lie on both sides of 0. *)
Lemma round_sum_between sc mc ec Cv st T t :
  ec < 0 -> signed sc mc = Cv * 2 ^ (- ec) -> of_Z Cv = S754_finite sc mc ec ->
  within st T t -> 0 <= T ->
  let lo := Cv + (if st then - T else 0) in
  let hi := Cv + (if st then 0 else T) in
  lo <= 0 <= hi -> - 2 ^ 51 < lo -> hi < 2 ^ 51 ->
  integer_between lo hi (Math_round (add (S754_finite sc mc ec) t)).
Proof.
  intros Hec HC HofZ Ht HT lo hi Hlohi Hlo Hhi.
  destruct t as [s'| | |s' mt et]; try done; cbn [within] in Ht.
  - unfold add. cbn [SFadd]. rewrite <- HofZ, Math_round_of_Z.
    exists Cv. split; [|by left]. unfold lo, hi. destruct st; lia.
  - destruct Ht as (-> & Het & Hmt). unfold add. cbn [SFadd]. cbv zeta.
    set (ez := Z.min ec et).
    rewrite !shl_align_value by (unfold ez; lia).
    assert (Hpz : 0 < 2 ^ (- ez)) by (apply Z.pow_pos_nonneg; unfold ez; lia).
    assert (Hpc : 0 < 2 ^ (ec - ez)) by (apply Z.pow_pos_nonneg; unfold ez; lia).
    assert (Hpt : 0 < 2 ^ (et - ez)) by (apply Z.pow_pos_nonneg; unfold ez; lia).
    assert (Hzc : 2 ^ (- ez) = 2 ^ (- ec) * 2 ^ (ec - ez)).
    { rewrite <- Z.pow_add_r by (unfold ez; lia). f_equal. lia. }
    assert (Hzt : 2 ^ (- ez) = 2 ^ (- et) * 2 ^ (et - ez)).
    { rewrite <- Z.pow_add_r by (unfold ez; lia). f_equal. lia. }
    assert (Ha : cond_Zopp sc (Zpos mc * 2 ^ (ec - ez)) = Cv * 2 ^ (- ez)).
    { rewrite Hzc, Z.mul_assoc, <- HC. unfold signed. destruct sc; cbn [cond_Zopp]; lia. }
    assert (Hb : 0 < Zpos mt * 2 ^ (et - ez) <= T * 2 ^ (- ez)).
    { split; [lia|]. rewrite Hzt, Z.mul_assoc.
      apply Z.mul_le_mono_nonneg_r; lia. }
    rewrite Ha. set (b := Zpos mt * 2 ^ (et - ez)) in *.
    assert (HS : lo * 2 ^ (- ez) <= Cv * 2 ^ (- ez) + cond_Zopp st b <= hi * 2 ^ (- ez)).
    { unfold lo, hi. destruct st; cbn [cond_Zopp]; lia. }
    set (S := Cv * 2 ^ (- ez) + cond_Zopp st b) in *.
    assert (Hez : ez <= 0) by (unfold ez; lia).
    destruct S as [|p|p] eqn:HSeq; cbn [binary_normalize].
    + exists 0. split; [lia|by left].
    + assert (Hw : within false hi (binary_round prec emax false p ez)).
      { apply binary_round_within; [done|done|lia]. }
      destruct (Math_round_within _ _ _ Hw ltac:(lia)) as (n & Hn & ->).
      exists n. split; [lia|]. left. by destruct (Z.eqb_spec n 0) as [->|].
    + assert (Hw : within true (- lo) (binary_round prec emax true p ez)).
      { apply binary_round_within; [done|lia|lia]. }
      destruct (Math_round_within _ _ _ Hw ltac:(lia)) as (n & Hn & ->).
      exists n. split; [lia|]. destruct (Z.eqb_spec n 0) as [->|]; [by right|by left].
Qed.

Lemma round_unit_times r K mc ec :
  of_Z K = S754_finite false mc ec ->
  2 ^ 52 <= Zpos mc < 2 ^ 53 -> -52 <= ec <= -2 -> Zpos mc = K * 2 ^ (- ec) ->
  unit_interval r ->
  exists n, 0 <= n <= K /\ Math_round (mul r (of_Z K)) = of_Z n.
Proof.
  intros HofZ Hmc Hec HK Hr.
  assert (HK0 : 0 < K).
  { assert (0 < 2 ^ (- ec)) by (apply Z.pow_pos_nonneg; lia). nia. }
  destruct (mul_unit_within _ r _ _ _ K HofZ Hmc Hec HK Hr) as [Hw _].
  destruct (Math_round_within _ _ _ Hw ltac:(lia)) as (n & Hn & ->).
  exists n. split; [done|]. by destruct (Z.eqb_spec n 0) as [->|].
Qed.

(** *** [Math.round] gives the nearest integer *)

Lemma valid_mantissa m e : bounded prec emax m e = true -> Zpos m < 2 ^ 53.
Proof.
  intros [Hc _]%andb_prop. unfold canonical_mantissa in Hc.
  apply Z.eqb_eq in Hc. unfold fexp, emin, prec, emax in Hc.
  destruct (digits2_bounds m) as [_ Hhi].
  assert (2 ^ Zpos (digits2_pos m) <= 2 ^ 53) by (apply Z.pow_le_mono_r; lia). lia.
Qed.

Lemma denotes_of_Z n : Z.abs n < 2 ^ 53 -> denotes (of_Z n) n.
Proof.
  assert (Hgen : forall s p, Zpos p < 2 ^ 53 ->
            denotes (binary_round prec emax s p 0) (signed s p)).
  { intros s p Hp. pose proof (digits2_le p 53 Hp) as Hd.
    rewrite binary_round_small by done.
    set (d := Zpos (digits2_pos p)) in *.
    assert (Hpow : 0 < 2 ^ (53 - d)) by (apply Z.pow_pos_nonneg; lia).
    cbn [denotes numerator denominator].
    replace (Z.max (d - 53) 0) with 0 by lia.
    replace (Z.max (- (d - 53)) 0) with (53 - d) by lia.
    unfold signed. destruct s; cbn [cond_Zopp]; rewrite Z2Pos.id by lia; cbn; lia. }
  intros Hn. destruct n as [|p|p]; [reflexivity| |].
  - apply (Hgen false p). lia.
  - apply (Hgen true p). lia.
Qed.

Lemma Math_round_rounded x :
  (forall s m e, x = S754_finite s m e -> Zpos m < 2 ^ 53) -> rounded x (Math_round x).
Proof.
  destruct x as [s| | |s m e]; try reflexivity. intros Hm.
  specialize (Hm s m e eq_refl). cbn [rounded Math_round].
  destruct (Z.leb_spec 0 e) as [He|He].
  - exists (signed s m * 2 ^ e). cbn [denotes numerator denominator].
    replace (Z.max e 0) with e by lia. replace (Z.max (- e) 0) with 0 by lia.
    cbn. lia.
  - cbv zeta. cbn [numerator denominator].
    replace (Z.max e 0) with 0 by lia. replace (Z.max (- e) 0) with (- e) by lia.
    assert (Hh : 0 < 2 ^ (- e - 1)) by (apply Z.pow_pos_nonneg; lia).
    assert (Hk2 : 2 ^ (- e) = 2 * 2 ^ (- e - 1)).
    { replace (- e) with (Z.succ (- e - 1)) at 1 by lia. apply Z.pow_succ_r. lia. }
    rewrite Z.shiftr_div_pow2 by lia. rewrite Hk2.
    set (h := 2 ^ (- e - 1)) in *. set (N := signed s m).
    assert (HN : Z.abs N < 2 ^ 53) by (unfold N, signed; destruct s; cbn [cond_Zopp]; lia).
    assert (H2h : 0 < 2 * h) by lia.
    pose proof (Z.div_mod (N + h) (2 * h) ltac:(lia)) as Hdiv.
    pose proof (Z.mod_pos_bound (N + h) (2 * h) H2h) as Hmod.
    set (n := (N + h) / (2 * h)) in *.
    exists n. split.
    + destruct (Z.eqb_spec n 0) as [->|Hn0]; [reflexivity|].
      apply denotes_of_Z.
      assert (Hlo : - 2 ^ 53 < n).
      { assert (- 2 ^ 53 + 1 <= n); [|lia].
        apply Z.div_le_lower_bound; [lia|]. nia. }
      assert (Hhi : n < 2 ^ 53).
      { apply Z.div_lt_upper_bound; [lia|]. nia. }
      lia.
    + change (2 ^ 0) with 1. lia.
Qed.

(** *** The mantissa of a product has 53 bits *)

Lemma shr_fexp_small m1 fe :
  0 <= m1 < 2 ^ 52 -> -1074 <= fe ->
  shr_fexp prec emax m1 fe loc_Exact =
  ({| shr_m := m1; shr_r := false; shr_s := false |}, fe).
Proof.
  intros Hm1 Hfe. unfold shr_fexp.
  assert (Hshift : fexp prec emax (Zdigits2 m1 + fe) - fe <= 0).
  { destruct m1 as [|p|p]; [|cbn [Zdigits2]|lia].
    - cbn [Zdigits2]. unfold fexp, emin, prec, emax. lia.
    - pose proof (digits2_le p 52 ltac:(lia)).
      unfold fexp, emin, prec, emax. lia. }
  destruct (fexp prec emax (Zdigits2 m1 + fe) - fe); [reflexivity|lia|reflexivity].
Qed.

Lemma binary_round_aux_mantissa s p E s' m' e' :
  binary_round_aux prec emax s (Zpos p) E loc_Exact = S754_finite s' m' e' ->
  Zpos m' < 2 ^ 53.
Proof.
  destruct (digits2_bounds p) as [Hd1 Hd2].
  set (d := Zpos (digits2_pos p)) in *.
  set (fe := fexp prec emax (d + E)).
  assert (Hfe : fe = Z.max (d + E - 53) (-1074)) by reflexivity.
  set (k := fe - E).
  unfold binary_round_aux, shr_fexp at 1.
  cbn [Zdigits2 shr_record_of_loc]. fold d. fold fe. fold k.
  destruct (Z.lt_ge_cases 0 k) as [Hk|Hk].
  - assert (Hpk : 0 < 2 ^ k) by (apply Z.pow_pos_nonneg; lia).
    rewrite shr_exact by lia. cbv beta iota.
    change (round_nearest_even _ _) with (rnd (Zpos p) k).
    pose proof (rnd_nonneg (Zpos p) k ltac:(lia) Hk) as Hr0.
    destruct (rnd_near (Zpos p) k ltac:(lia) Hk) as [[Hr1 Hr2] _].
    assert (Hr53 : rnd (Zpos p) k <= 2 ^ 53).
    { assert (Zpos p / 2 ^ k < 2 ^ 53); [|lia].
      apply Z.div_lt_upper_bound; [done|].
      assert (2 ^ d <= 2 ^ k * 2 ^ 53); [|lia].
      rewrite <- Z.pow_add_r by lia. apply Z.pow_le_mono_r; lia. }
    replace (E + k) with fe by (unfold k; lia).
    destruct (Z.lt_ge_cases (rnd (Zpos p) k) (2 ^ 52)) as [Hsmall|Hbig].
    + rewrite shr_fexp_small by lia. cbn [shr_m].
      destruct (rnd (Zpos p) k) as [|q|q]; try discriminate.
      destruct (fe <=? emax - prec); [|discriminate].
      intros [= _ <- _]. lia.
    + destruct (shr_fexp_carry (rnd (Zpos p) k) fe ltac:(lia) ltac:(lia))
        as (m2 & e2 & -> & Hm2 & _ & _).
      cbn [shr_m]. destruct (e2 <=? emax - prec); [|discriminate].
      intros [= _ <- _]. lia.
  - assert (Hd : d <= 53) by lia.
    assert (Hp : Zpos p < 2 ^ 53).
    { assert (2 ^ d <= 2 ^ 53) by (apply Z.pow_le_mono_r; lia). lia. }
    assert (Hshr : forall mrs, shr mrs E k = (mrs, E)).
    { intros mrs. unfold shr. destruct k; [reflexivity|lia|reflexivity]. }
    rewrite Hshr. cbn [shr_m loc_of_shr_record round_nearest_even].
    unfold shr_fexp. cbn [Zdigits2 shr_record_of_loc]. fold d. fold fe. fold k.
    rewrite Hshr. cbn [shr_m].
    destruct (E <=? emax - prec); [|discriminate].
    intros [= _ <- _]. exact Hp.
Qed.

Lemma mul_mantissa a b s m e : mul a b = S754_finite s m e -> Zpos m < 2 ^ 53.
Proof.
  unfold mul. destruct a as [sa| sa| |sa ma ea], b as [sb|sb| |sb mb eb];
    cbn [SFmul]; try discriminate.
  apply binary_round_aux_mantissa.
Qed.

Local Close Scope Z_scope.

(** ** The records of an update *)

Section UpdateRecords.

Variable shapes : string -> Outline.

(** C4, as the code has it: at every tick of the update timer the
    server sends one volatile [update] whose game state holds, in the
    order of [dynamic], one record [{i, x, y, r}] for each dynamic body
    that is not sleeping and none for any other body; no two records
    carry the same id, and the state does not change.  In the record of
    a body, [i] is its id; [x] and [y] are the integers nearest to the
    coordinates of its position, a half going up; and [r] is the
    quotient by 100, on binary64 numbers, of the integer nearest to
    the binary64 product of its angle and 100. *)
Theorem update_lists_awake_dynamic (evs : list Event) :
  let s := state_of (serve shapes evs) in
  let gamestate := map update_of (filter awake (bodies (dynamic s))) in
  emitRegularUpdates s = (tt, s, [IoVolatileEmit "update" (PGamestate gamestate)]) /\
  NoDup (map Update.i gamestate) /\
  Forall2 (fun b u =>
             Update.i u = id b /\
             (valid_binary prec emax (Vector.x (position b)) = true ->
              rounded (Vector.x (position b)) (Update.x u)) /\
             (valid_binary prec emax (Vector.y (position b)) = true ->
              rounded (Vector.y (position b)) (Update.y u)) /\
             exists q, rounded (mul (angle b) (of_Z 100)) q /\
                       Update.r u = div q (of_Z 100))
    (filter awake (bodies (dynamic s))) gamestate.
Proof.
  intros s gamestate. split; [|split].
  - unfold gamestate. rewrite <- gamestate_filter. reflexivity.
  - pose proof (Inv_serve shapes evs) as [Hnd _ _ _ _ _ _ _]. fold s in Hnd.
    unfold all_ids in Hnd. apply NoDup_app in Hnd as (_ & _ & Hnd).
    apply NoDup_app in Hnd as (_ & _ & Hnd).
    unfold gamestate. rewrite map_map. cbn.
    eapply sublist_NoDup; [exact Hnd|].
    apply (fmap_sublist id), sublist_filter.
  - unfold gamestate.
    induction (filter awake (bodies (dynamic s))) as [|b l IH]; constructor; [|exact IH].
    cbn [update_of Update.i Update.x Update.y Update.r].
    split; [reflexivity|]. split; [|split].
    + intros Hv. apply Math_round_rounded. intros s0 m e Hx.
      rewrite Hx in Hv. by apply valid_mantissa in Hv.
    + intros Hv. apply Math_round_rounded. intros s0 m e Hx.
      rewrite Hx in Hv. by apply valid_mantissa in Hv.
    + exists (Math_round (mul (angle b) (of_Z 100))). split; [|reflexivity].
      apply Math_round_rounded. intros s0 m e. apply mul_mantissa.
Qed.

End UpdateRecords.

(** ** The spawned bag *)

Section Spawn.

Variable shapes : string -> Outline.

(** X14: when the three random numbers for the attributes are in the
    unit interval, as [Math.random] returns them, the bag that the spawn
    timer adds has integer points from 0 to 10 and an integer sword and
    shield from 0 to 4. *)
Theorem spawned_bag_attributes (s : Server) (r1 r2 r3 r4 r5 : number) :
  let res := spawn shapes r1 r2 r3 r4 r5 s in
  unit_interval r3 -> unit_interval r4 -> unit_interval r5 ->
  exists bag p sw sh,
    bodies (static (state_of res)) = bodies (static s) ++ [bag] /\
    points bag = Some (of_Z p) /\ (0 <= p <= 10)%Z /\
    sword bag = Some (of_Z sw) /\ (0 <= sw <= 4)%Z /\
    shield bag = Some (of_Z sh) /\ (0 <= sh <= 4)%Z.
Proof.
  intros res H3 H4 H5. unfold res. rewrite spawn_run.
  destruct (round_unit_times r3 10 5629499534213120 (-49)) as (p & Hp & Hp');
    [reflexivity|by vm_compute|lia|reflexivity|done|].
  destruct (round_unit_times r4 4 4503599627370496 (-50)) as (sw & Hsw & Hsw');
    [reflexivity|by vm_compute|lia|reflexivity|done|].
  destruct (round_unit_times r5 4 4503599627370496 (-50)) as (sh & Hsh & Hsh');
    [reflexivity|by vm_compute|lia|reflexivity|done|].
  exists (new_bag shapes r1 r2 r3 r4 r5 s), p, sw, sh.
  unfold state_of. cbn [fst snd setC static set_bodies bodies new_bag Body_create
    points sword shield o_points o_sword o_shield].
  rewrite Hp', Hsw', Hsh'. done.
Qed.

(** X15: when the outline of a bag is convex, so that
    [Bodies.fromVertices] puts the body at the point asked for, and the
    two random numbers for the position are in the unit interval, the
    bag that the spawn timer adds lies at integer coordinates with x
    from -400 to 400 and y from -100 to 500 (a coordinate that rounds
    to zero from below is the negative zero). *)
Theorem spawned_bag_position (s : Server) (r1 r2 r3 r4 r5 : number) :
  let res := spawn shapes r1 r2 r3 r4 r5 s in
  shapes "bag" = Convex ->
  unit_interval r1 -> unit_interval r2 ->
  exists bag,
    bodies (static (state_of res)) = bodies (static s) ++ [bag] /\
    integer_between (-400) 400 (Vector.x (position bag)) /\
    integer_between (-100) 500 (Vector.y (position bag)).
Proof.
  intros res Hconvex H1 H2. unfold res. rewrite spawn_run.
  exists (new_bag shapes r1 r2 r3 r4 r5 s).
  unfold state_of. cbn [fst snd setC static set_bodies bodies new_bag Body_create
    position]. unfold place. rewrite Hconvex.
  cbn [placement Vector.x Vector.y]. unfold spawn_x, spawn_y.
  split; [done|]. split.
  - destruct (mul_unit_within (of_Z 800) r1 false 7036874417766400 (-43) 800)
      as [_ Hw]; [reflexivity|by vm_compute|lia|reflexivity|done|].
    change (of_Z (-400)) with (S754_finite true 7036874417766400 (-44)).
    apply (round_sum_between true 7036874417766400 (-44) (-400) false 800);
      [lia|reflexivity|reflexivity|done|lia|lia|lia|by vm_compute].
  - destruct (mul_unit_within (of_Z (-600)) r2 true 5277655813324800 (-43) 600)
      as [_ Hw]; [reflexivity|by vm_compute|lia|reflexivity|done|].
    change (of_Z 500) with (S754_finite false 8796093022208000 (-44)).
    apply (round_sum_between false 8796093022208000 (-44) 500 true 600);
      [lia|reflexivity|reflexivity|done|lia|lia|by vm_compute|lia].
Qed.

End Spawn.

(** ** Concrete runs *)

Lemma join_snapshot_is_a_sequence_witness :
  bodies (static alice_in) ++ bodies (dynamic alice_in) ≠ [] /\
  output_of (on_join convex "b" "bob" alice_in) =
    [SendId "b" 5;
     SocketEmit "b" "add" (PInfos [bodyInfo alice]);
     IoEmit "add" (PInfo (bodyInfo bob))].
Proof.
  split; [vm_compute; discriminate|].
  refine (eq_trans
            (join_snapshot_is_a_sequence convex
               [EvConnection "a"; EvJoin "a" "alice"; EvConnection "b"] "b" "bob" _) _).
  - vm_compute. discriminate.
  - vm_compute. reflexivity.
Defined.

(** C2, as the claim has it, fails: removing an array of one body from
    [dynamic] removes exactly one body and broadcasts [remove] with an
    array of one id, not with the bare id. *)
Lemma remove_array_of_one_sends_array :
  bodies (dynamic alice_in) = [alice] /\
  Composite_remove Dynamic (OArray [alice]) alice_in =
    (tt, setC Dynamic (set_bodies [] (dynamic alice_in)) alice_in,
     [IoEmit "remove" (PIds [4])]) /\
  PIds [4] ≠ PId 4.
Proof.
  split; [|split].
  - vm_compute. reflexivity.
  - vm_compute. reflexivity.
  - discriminate.
Qed.

Lemma bound_player_is_dynamic_witness :
  player alice_in !! "a"%string = Some (Some alice) /\
  id alice ∈ ids (bodies (dynamic alice_in)).
Proof.
  unfold alice_in.
  assert (Hp : player (state_of (serve convex
                  [EvConnection "a"; EvJoin "a" "alice"; EvConnection "b"])) !! "a"%string
               = Some (Some alice))
    by (vm_compute; reflexivity).
  split; [exact Hp|].
  exact (proj1 (bound_player_is_dynamic convex
                  [EvConnection "a"; EvJoin "a" "alice"; EvConnection "b"] "a" alice Hp)).
Defined.

(** C3, on the code: a second [join] on a connection that has joined is
    handled like the first.  It is acknowledged with a new id, a second
    player body joins [dynamic], and the disconnect that follows removes
    only that second body: the first one stays in [dynamic] and in
    [socketIds]. *)
Theorem second_join_adds_second_player :
  let joined := state_of (serve convex [EvConnection "a"; EvJoin "a" "bob"]) in
  let again := step convex (EvJoin "a" "bob") joined in
  let gone := step convex (EvDisconnect "a") (state_of again) in
  ids (bodies (dynamic joined)) = [4] /\
  output_of again =
    [SendId "a" 5;
     SocketEmit "a" "add"
       (PInfos [bodyInfo (Body_create 4 (of_Z 0) (of_Z (-300)) (player_options "bob"))]);
     IoEmit "add" (PInfo (bodyInfo bob))] /\
  map nickname (bodies (dynamic (state_of again))) = [Some "bob"; Some "bob"]%string /\
  ids (bodies (dynamic (state_of again))) = [4; 5] /\
  output_of gone = [IoEmit "remove" (PId 5)] /\
  ids (bodies (dynamic (state_of gone))) = [4] /\
  map_to_list (socketIds (state_of gone)) = [(4, "a"%string)].
Proof. vm_compute. repeat split. Qed.

Lemma join_synchronises_any_view_witness :
  ({[4]} : gset nat) ⊆
    visible (state_of (serve convex
      [EvConnection "a"; EvJoin "a" "alice"; EvSpawn (of_Z 0) (of_Z 0) (of_Z 0) (of_Z 0) (of_Z 0);
       EvConnection "b"])) /\
  track "b" {[4]}
    (output_of (on_join convex "b" "bob"
       (state_of (serve convex
          [EvConnection "a"; EvJoin "a" "alice";
           EvSpawn (of_Z 0) (of_Z 0) (of_Z 0) (of_Z 0) (of_Z 0); EvConnection "b"])))) =
  Some (visible (state_of (on_join convex "b" "bob"
       (state_of (serve convex
          [EvConnection "a"; EvJoin "a" "alice";
           EvSpawn (of_Z 0) (of_Z 0) (of_Z 0) (of_Z 0) (of_Z 0); EvConnection "b"]))))).
Proof.
  assert (Hsub : ({[4]} : gset nat) ⊆
    visible (state_of (serve convex
      [EvConnection "a"; EvJoin "a" "alice"; EvSpawn (of_Z 0) (of_Z 0) (of_Z 0) (of_Z 0) (of_Z 0);
       EvConnection "b"]))).
  { apply (bool_decide_unpack _). vm_compute. exact I. }
  split; [exact Hsub|].
  exact (join_synchronises_any_view convex _ "b" "bob" {[4]} Hsub).
Defined.

Lemma unbound_player_is_never_removed_witness :
  4 ∈ ids (bodies (dynamic (state_of (serve convex
        [EvConnection "a"; EvJoin "a" "bob"; EvJoin "a" "bob"])))) /\
  (4 ∉ bound_ids (state_of (serve convex
        [EvConnection "a"; EvJoin "a" "bob"; EvJoin "a" "bob"]))) /\
  4 ∈ ids (bodies (dynamic (state_of (run convex [EvDisconnect "a"]
        (state_of (serve convex
           [EvConnection "a"; EvJoin "a" "bob"; EvJoin "a" "bob"])))))).
Proof.
  assert (Hin : 4 ∈ ids (bodies (dynamic (state_of (serve convex
        [EvConnection "a"; EvJoin "a" "bob"; EvJoin "a" "bob"]))))).
  { apply (bool_decide_unpack _). vm_compute. exact I. }
  assert (Hfree : 4 ∉ bound_ids (state_of (serve convex
        [EvConnection "a"; EvJoin "a" "bob"; EvJoin "a" "bob"]))).
  { apply (bool_decide_unpack _). vm_compute. exact I. }
  split; [exact Hin|]. split; [exact Hfree|].
  exact (proj1 (unbound_player_is_never_removed convex _ [EvDisconnect "a"] 4 Hin Hfree)).
Defined.

Lemma pop_of_absent_body_witness :
  (id alice ∉ ids (bodies (dynamic (state_of (serve convex
      [EvSpawn (of_Z 0) (of_Z 0) (of_Z 0) (of_Z 0) (of_Z 0)]))))) /\
  pop alice (state_of (serve convex [EvSpawn (of_Z 0) (of_Z 0) (of_Z 0) (of_Z 0) (of_Z 0)])) =
  (tt, state_of (serve convex [EvSpawn (of_Z 0) (of_Z 0) (of_Z 0) (of_Z 0) (of_Z 0)]),
   [IoEmit "remove" (PId (id alice))]).
Proof.
  assert (Habsent : id alice ∉ ids (bodies (dynamic (state_of (serve convex
            [EvSpawn (of_Z 0) (of_Z 0) (of_Z 0) (of_Z 0) (of_Z 0)]))))).
  { apply (bool_decide_unpack _). vm_compute. exact I. }
  split; [exact Habsent|].
  exact (pop_of_absent_body convex _ alice Habsent).
Defined.

Lemma join_then_disconnect_restores_witness :
  player (state_of (serve convex
            [EvConnection "a"; EvJoin "a" "alice"; EvConnection "b"])) !! "c"%string = None /\
  state_of (run convex [EvConnection "c"; EvJoin "c" "carol"; EvDisconnect "c"]
              (state_of (serve convex
                 [EvConnection "a"; EvJoin "a" "alice"; EvConnection "b"]))) =
  set_nextId 6 (state_of (serve convex
                  [EvConnection "a"; EvJoin "a" "alice"; EvConnection "b"])).
Proof.
  assert (Hclosed : player (state_of (serve convex
             [EvConnection "a"; EvJoin "a" "alice"; EvConnection "b"])) !! "c"%string = None)
    by (vm_compute; reflexivity).
  split; [exact Hclosed|].
  exact (proj1 (join_then_disconnect_restores convex _ "c" "carol" Hclosed)).
Defined.

Lemma spawned_bag_attributes_witness :
  unit_interval half /\
  exists bag p sw sh,
    bodies (static (state_of (spawn convex half half half half half (booted convex)))) =
      bodies (static (booted convex)) ++ [bag] /\
    points bag = Some (of_Z p) /\ (0 <= p <= 10)%Z /\
    sword bag = Some (of_Z sw) /\ (0 <= sw <= 4)%Z /\
    shield bag = Some (of_Z sh) /\ (0 <= sh <= 4)%Z.
Proof.
  assert (Hhalf : unit_interval half) by (by vm_compute).
  split; [exact Hhalf|].
  exact (spawned_bag_attributes convex (booted convex) half half half half half
           Hhalf Hhalf Hhalf).
Defined.

Lemma spawned_bag_position_witness :
  convex "bag" = Convex /\
  unit_interval half /\
  exists bag,
    bodies (static (state_of (spawn convex half half half half half (booted convex)))) =
      bodies (static (booted convex)) ++ [bag] /\
    integer_between (-400) 400 (Vector.x (position bag)) /\
    integer_between (-100) 500 (Vector.y (position bag)).
Proof.
  assert (Hhalf : unit_interval half) by (by vm_compute).
  split; [reflexivity|]. split; [exact Hhalf|].
  exact (spawned_bag_position convex (booted convex) half half half half half
           eq_refl Hhalf Hhalf).
Defined.

(** C4, as the claim has it, fails for the angle: the binary64 number
    nearest to 0.015 lies between 0.01 and 0.015, so that 0.01 is the
    number of two decimals nearest to it, and the update of a player
    turned by that angle carries 0.02. *)
Lemma update_angle_is_not_the_nearest :
  let turned := fun b : Body =>
    {| m_position := position b; m_angle := angle_015; m_isSleeping := false |} in
  valid_binary prec emax angle_015 = true /\
  (10 * denominator angle_015 <? numerator angle_015 * 1000)%Z = true /\
  (numerator angle_015 * 1000 <? 15 * denominator angle_015)%Z = true /\
  map angle (bodies (dynamic (state_of (run convex [EvEngine turned] alice_in)))) =
    [angle_015] /\
  output_of (emitRegularUpdates (state_of (run convex [EvEngine turned] alice_in))) =
    [IoVolatileEmit "update"
       (PGamestate [ {| Update.i := 4; Update.x := of_Z 0; Update.y := of_Z (-300);
                        Update.r := S754_finite false 5764607523034235 (-58) |} ])] /\
  div (of_Z 2) (of_Z 100) = S754_finite false 5764607523034235 (-58) /\
  div (of_Z 1) (of_Z 100) = S754_finite false 5764607523034235 (-59).
Proof. vm_compute. repeat split. Qed.

Lemma first_join_in_empty_world_witness :
  convex "player" = Convex /\
  output_of (on_join convex "a" "alice" (booted convex)) =
    [SendId "a" 4;
     IoEmit "add"
       (PInfo {| ri_id := 4;
                 ri_shape := Some "player"%string;
                 ri_position := {| Vector.x := of_Z 0; Vector.y := of_Z (-300) |};
                 ri_angle := Some (of_Z 0) |})].
Proof.
  split; [reflexivity|].
  exact (first_join_in_empty_world convex "a" "alice" eq_refl).
Defined.
